(** * lambdas: the placeholder-expression builder

  A shallow embedding of [lambdas/__init__.py]: the [_Expression] /
  [_Chain] / [_Operation] hierarchy with its dual dispatch for [&] and
  [|], the identity placeholder [_Callable] and the mutable arithmetic
  accumulator [_MathExpression].

  Python values are a closed universe: integers, floats, strings, the
  [NotImplemented] singleton, instances of user classes, expression
  objects (immutable, so held by structure) and references to
  [_MathExpression] instances (mutable, so held by location in a heap).
  Exceptions are explicit results. *)

From Stdlib Require Import ZArith String DecimalString.
From Stdlib Require Import Floats.PrimFloat Numbers.Cyclic.Int63.Uint63.
From stdpp Require Import base decidable list.

Open Scope Z_scope.

(** ** Exceptions and results *)

Inductive type_error : Type :=
| UnsupportedOperand   (* unsupported operand type(s) for an operator *)
| WrongArity           (* missing or extra positional arguments *)
| NotCallable.         (* the object is not callable *)

Inductive exn : Type :=
| TypeError (why : type_error)
| ValueError           (* not enough values to unpack *)
| ZeroDivisionError
| OverflowError.

(** The names the specification gives to the three failures. *)
Definition UnsupportedOperation : exn := TypeError UnsupportedOperand.
Definition ArityError : exn := TypeError WrongArity.
Definition EmptyExpressionError : exn := ValueError.

Inductive result (A : Type) : Type :=
| Ok (a : A)
| Raise (e : exn).
Arguments Ok {A} a.
Arguments Raise {A} e.

Definition result_bind {A B} (r : result A) (k : A -> result B) : result B :=
match r with
| Ok a => k a
| Raise e => Raise e
end.

(** ** Values *)

Definition loc := nat.
Bind Scope nat_scope with loc.

Section Values.
Variable cls : Type.

Inductive value : Type :=
| VInt (n : Z)
| VFloat (x : float)
| VStr (s : string)
| VNotImplemented
| VObj (c : cls)                 (* instance of a user class *)
| VExpr (e : expr)               (* a [_Callable] or a [_Chain] *)
| VMath (l : loc)                (* a [_MathExpression] instance *)
with expr : Type :=
| Placeholder                                   (* [_ = _Callable()] *)
| Chain (previous : expr) (operation : operation)
with operation : Type :=
| SomethingAnd (operand : value)  (* [<operand> & <argument>] *)
| AndSomething (operand : value)  (* [<argument> & <operand>] *)
| SomethingOr (operand : value)   (* [<operand> | <argument>] *)
| OrSomething (operand : value).  (* [<argument> | <operand>] *)

Inductive pytype : Type :=
| int_t | float_t | str_t | NotImplementedType
| Callable_t | Chain_t | MathExpression_t
| user_t (c : cls).

(** What a user class provides, inherited methods included: its
    [__repr__] and any of the four dunder methods of the
    [_Supports...] protocols, each taking the other operand.
    Instances carry no state. *)
Record user_class : Type := {
  cls_repr : string;
  cls_and : option (value -> result value);
  cls_rand : option (value -> result value);
  cls_or : option (value -> result value);
  cls_ror : option (value -> result value);
}.
End Values.

Arguments VInt {cls} n.
Arguments VFloat {cls} x.
Arguments VStr {cls} s.
Arguments VNotImplemented {cls}.
Arguments VObj {cls} c.
Arguments VExpr {cls} e.
Arguments VMath {cls} l.
Arguments Placeholder {cls}.
Arguments Chain {cls} previous operation.
Arguments SomethingAnd {cls} operand.
Arguments AndSomething {cls} operand.
Arguments SomethingOr {cls} operand.
Arguments OrSomething {cls} operand.
Arguments int_t {cls}.
Arguments float_t {cls}.
Arguments str_t {cls}.
Arguments NotImplementedType {cls}.
Arguments Callable_t {cls}.
Arguments Chain_t {cls}.
Arguments MathExpression_t {cls}.
Arguments user_t {cls} c.
Arguments cls_repr {cls} u.
Arguments cls_and {cls} u.
Arguments cls_rand {cls} u.
Arguments cls_or {cls} u.
Arguments cls_ror {cls} u.

Inductive bitop : Type := BitAnd | BitOr.

(** The user classes of a program.  A class derives from [object] or
    from another class of the program: [cls_subclass c d] says that
    [c] is a proper subclass of [d], and [cls_overrides op c d] that
    the reflected method of [op] found on [c] is not the one found on
    [d]. *)
Class UserClasses (cls : Type) : Type := {
  cls_eq_dec :: EqDecision cls;
  class_def : cls -> user_class cls;
  cls_subclass : cls -> cls -> bool;
  cls_overrides : bitop -> cls -> cls -> bool;
}.

Inductive arith : Type := Add | Sub | Mul | FloorDiv | TrueDiv | Mod | Pow.

(** The host's built-in behaviour the library calls into but does not
    define: [repr] of floats, strings and plain objects; the outcome of
    [a op b] for two numbers; string formatting [s % other].  [None]
    marks host behaviour left outside the model. *)
Class Host (cls : Type) : Type := {
  builtin_repr : value cls -> string;
  num_arith : arith -> value cls -> value cls -> option (result (value cls));
  str_format : string -> value cls -> option (result string);
}.

Section Pure.
Context {cls : Type} `{!UserClasses cls} `{!Host cls}.

#[local] Abbreviation value := (value cls).
#[local] Abbreviation expr := (expr cls).
#[local] Abbreviation operation := (operation cls).

Definition type_of (v : value) : pytype cls :=
  match v with
  | VInt _ => int_t
  | VFloat _ => float_t
  | VStr _ => str_t
  | VNotImplemented => NotImplementedType
  | VObj c => user_t c
  | VExpr Placeholder => Callable_t
  | VExpr (Chain _ _) => Chain_t
  | VMath _ => MathExpression_t
  end.

#[global] Instance pytype_eq_dec : EqDecision (pytype cls).
Proof. solve_decision. Defined.

(** *** [_Expression]: the four combinators *)

Definition Expression_and (self : expr) (other : value) : expr :=
  Chain self (AndSomething other).

Definition Expression_rand (self : expr) (other : value) : expr :=
  Chain self (SomethingAnd other).

Definition Expression_or (self : expr) (other : value) : expr :=
  Chain self (OrSomething other).

Definition Expression_ror (self : expr) (other : value) : expr :=
  Chain self (SomethingOr other).

(** *** The host's binary operator protocol for [&] and [|] *)

Definition int_bitop (op : bitop) (a b : Z) : Z :=
  match op with
  | BitAnd => Z.land a b
  | BitOr => Z.lor a b
  end.

(** [type(self).__and__] / [__or__], when the type has one. *)
Definition forward_bit (op : bitop) (self : value)
  : option (value -> result value) :=
  match self with
  | VInt a =>
      Some (fun other =>
              match other with
              | VInt b => Ok (VInt (int_bitop op a b))
              | _ => Ok VNotImplemented
              end)
  | VObj c =>
      match op with
      | BitAnd => cls_and (class_def c)
      | BitOr => cls_or (class_def c)
      end
  | VExpr e =>
      Some (fun other =>
              Ok (VExpr match op with
                        | BitAnd => Expression_and e other
                        | BitOr => Expression_or e other
                        end))
  | VFloat _ | VStr _ | VNotImplemented | VMath _ => None
  end.

(** [type(self).__rand__] / [__ror__], when the type has one. *)
Definition reflected_bit (op : bitop) (self : value)
  : option (value -> result value) :=
  match self with
  | VInt a =>
      Some (fun other =>
              match other with
              | VInt b => Ok (VInt (int_bitop op b a))
              | _ => Ok VNotImplemented
              end)
  | VObj c =>
      match op with
      | BitAnd => cls_rand (class_def c)
      | BitOr => cls_ror (class_def c)
      end
  | VExpr e =>
      Some (fun other =>
              Ok (VExpr match op with
                        | BitAnd => Expression_rand e other
                        | BitOr => Expression_ror e other
                        end))
  | VFloat _ | VStr _ | VNotImplemented | VMath _ => None
  end.

(** Second half of [a op b]: the right operand's reflected method is
    tried when the types differ; nothing left means [TypeError]. *)
Definition try_reflected (op : bitop) (a b : value) : result value :=
  if decide (type_of a = type_of b) then Raise UnsupportedOperation
  else
    match reflected_bit op b with
    | Some m =>
        match m a with
        | Ok VNotImplemented => Raise UnsupportedOperation
        | r => r
        end
    | None => Raise UnsupportedOperation
    end.

(** The left operand's own method, then [otherwise] if it is absent or
    declines. *)
Definition forward_then (op : bitop) (a b : value) (otherwise : result value)
  : result value :=
  match forward_bit op a with
  | Some m =>
      match m b with
      | Ok VNotImplemented => otherwise
      | r => r
      end
  | None => otherwise
  end.

(** The right operand's reflected method has priority when its type is
    a proper subclass of the left operand's type and provides a
    different implementation of that method. *)
Definition reflected_first (op : bitop) (a b : value) : bool :=
  match a, b with
  | VObj d, VObj c =>
      if decide (c = d) then false
      else cls_subclass c d && cls_overrides op c d
  | _, _ => false
  end.

(** [a & b] and [a | b] as the interpreter evaluates them. *)
Definition binary_op (op : bitop) (a b : value) : result value :=
  if reflected_first op a b then
    match reflected_bit op b with
    | Some m =>
        match m a with
        | Ok VNotImplemented => forward_then op a b (Raise UnsupportedOperation)
        | r => r
        end
    | None => forward_then op a b (try_reflected op a b)
    end
  else forward_then op a b (try_reflected op a b).

(** *** [_Operation] and its four variants *)

Definition precedence (o : operation) : Z :=
  match o with
  | SomethingAnd _ | AndSomething _ => 8
  | SomethingOr _ | OrSomething _ => 10
  end.

Definition Operation_call (o : operation) (arg : value) : result value :=
  match o with
  | SomethingAnd operand => binary_op BitAnd operand arg
  | AndSomething operand => binary_op BitAnd arg operand
  | SomethingOr operand => binary_op BitOr operand arg
  | OrSomething operand => binary_op BitOr arg operand
  end.

(** *** [_Chain] and [_Callable] *)

Definition Expression_precedence (e : expr) : Z :=
  match e with
  | Placeholder => 0
  | Chain _ operation => precedence operation
  end.

(** Calling [e] with an argument list: both [__call__] methods take
  exactly one argument. *)
Fixpoint Expression_call (e : expr) (args : list value) : result value :=
  match args with
  | [arg] =>
      match e with
      | Placeholder => Ok arg
      | Chain previous operation =>
          result_bind (Expression_call previous [arg])
                      (Operation_call operation)
      end
  | _ => Raise ArityError
  end.

Definition repr_int (n : Z) : string :=
  NilZero.string_of_int (Z.to_int n).

Fixpoint repr (v : value) : string :=
  match v with
  | VInt n => repr_int n
  | VObj c => cls_repr (class_def c)
  | VExpr e => Expression_repr e
  | VNotImplemented => "NotImplemented"
  | VFloat _ | VStr _ | VMath _ => builtin_repr v
  end
with Expression_repr (e : expr) : string :=
  match e with
  | Placeholder => "_"
  | Chain previous operation =>
      as_string operation
        (if Expression_precedence previous <=? precedence operation
         then Expression_repr previous
         else "(" ++ Expression_repr previous ++ ")")
  end
with as_string (o : operation) (inner : string) : string :=
  match o with
  | SomethingAnd operand => repr operand ++ " & " ++ inner
  | AndSomething operand => inner ++ " & " ++ repr operand
  | SomethingOr operand => repr operand ++ " | " ++ inner
  | OrSomething operand => inner ++ " | " ++ repr operand
  end.
(** *** Reading a chain *)

(** The operations a chain recorded, root first. *)
Fixpoint recorded_operations (e : expr) : list operation :=
  match e with
  | Placeholder => []
  | Chain previous operation => recorded_operations previous ++ [operation]
  end.

(** Running a list of operations over an input, left to right, the
    first failure ending the run. *)
Definition replay (ops : list operation) (x : value) : result value :=
  fold_left (fun r o => result_bind r (Operation_call o)) ops (Ok x).

(** The operation that [operand op _] and [_ op operand] record. *)
Definition operand_left (op : bitop) (operand : value) : operation :=
  match op with
  | BitAnd => SomethingAnd operand
  | BitOr => SomethingOr operand
  end.

Definition operand_right (op : bitop) (operand : value) : operation :=
  match op with
  | BitAnd => AndSomething operand
  | BitOr => OrSomething operand
  end.

(** A method that is absent, or answers [NotImplemented] on [x]. *)
Definition declines (m : option (value -> result value)) (x : value) : bool :=
  match m with
  | None => true
  | Some f =>
      match f x with
      | Ok VNotImplemented => true
      | _ => false
      end
  end.

(** *** Expressions of the test-suite, built operator by operator *)

(** [(9 | _) & 6 & 7] *)
Definition or_then_and : result value :=
  result_bind (binary_op BitOr (VInt 9) (VExpr Placeholder)) (fun a =>
  result_bind (binary_op BitAnd a (VInt 6)) (fun b =>
  binary_op BitAnd b (VInt 7))).

(** [9 | (_ & 6) & 7], that is [9 | ((_ & 6) & 7)] *)
Definition and_then_or : result value :=
  result_bind (binary_op BitAnd (VExpr Placeholder) (VInt 6)) (fun a =>
  result_bind (binary_op BitAnd a (VInt 7)) (fun b =>
  binary_op BitOr (VInt 9) b)).

(** [60 & _ & 5 & 7] *)
Definition and_combination : result value :=
  result_bind (binary_op BitAnd (VInt 60) (VExpr Placeholder)) (fun a =>
  result_bind (binary_op BitAnd a (VInt 5)) (fun b =>
  binary_op BitAnd b (VInt 7))).
End Pure.

(** ** Arithmetic expressions

    A [_MathExpression] is mutable: the heap maps its location to the
    list [_operations].  A computation threads the heap; it yields no
    outcome ([None]) when the recursion budget of the operator protocol
    is used up, a location is dangling, or the host is not modelled. *)

(** The two-argument callables stored in the steps: [operator.add] and
    the like, possibly under [_flip]. *)
Inductive binary_callable : Type :=
| Operator (op : arith)
| Flip (callback : binary_callable).

(** [partial(operation, other)] *)
Record partial (cls : Type) : Type := Partial {
  func : binary_callable;
  bound : value cls;
}.
Arguments Partial {cls} func bound.
Arguments func {cls} p.
Arguments bound {cls} p.

Abbreviation heap cls := (list (list (partial cls))).

Definition M (cls A : Type) : Type := heap cls -> option (result A * heap cls).

Definition ret {cls A} (a : A) : M cls A := fun h => Some (Ok a, h).

Definition raise {cls A} (e : exn) : M cls A := fun h => Some (Raise e, h).

Definition host {cls A} (r : option (result A)) : M cls A :=
  fun h => match r with
           | Some r => Some (r, h)
           | None => None
           end.

Definition bind {cls A B} (m : M cls A) (k : A -> M cls B) : M cls B :=
  fun h => match m h with
           | Some (Ok a, h') => k a h'
           | Some (Raise e, h') => Some (Raise e, h')
           | None => None
           end.

Notation "x <- m ;; k" := (bind m (fun x => k))
  (at level 100, m at next level, right associativity).

Fixpoint str_repeat (s : string) (n : nat) : string :=
  match n with
  | O => EmptyString
  | S n' => s ++ str_repeat s n'
  end.

(** [functools.reduce(function, sequence, initial)] *)
Fixpoint reduce {cls A B} (function : A -> B -> M cls A) (sequence : list B)
  (initial : A) : M cls A :=
  match sequence with
  | [] => ret initial
  | x :: rest => acc <- function initial x ;; reduce function rest acc
  end.

Section Arithmetic.
Context {cls : Type} `{!UserClasses cls} `{!Host cls}.

#[local] Abbreviation value := (value cls).
#[local] Abbreviation M := (M cls).

(** [_MathExpression()] *)
Definition MathExpression_init : M loc :=
  fun h => Some (Ok (length h), h ++ [[]]).

Definition add_operation (self : loc) (operation : binary_callable)
  (other : value) : M value :=
  fun h => match h !! self with
           | Some operations =>
               Some (Ok (VMath self),
                     <[self := operations ++ [Partial operation other]]> h)
           | None => None
           end.

(** [__add__], [__sub__], ..., [__pow__] of [_MathExpression] *)
Definition MathExpression_op (op : arith) (self : loc) (other : value)
  : M value :=
  add_operation self (Flip (Operator op)) other.

(** [__radd__], [__rsub__], ..., [__rpow__] of [_MathExpression] *)
Definition MathExpression_rop (op : arith) (self : loc) (other : value)
  : M value :=
  add_operation self (Operator op) other.

Section Protocol.
(** The interpreter's [a op b], as seen from inside a method body. *)
Variable binop : arith -> value -> value -> M value.

(** [__add__], ..., [__pow__] of [_Callable]: [_MathExpression() op other] *)
Definition Callable_op (op : arith) (other : value) : M value :=
  me <- MathExpression_init ;; binop op (VMath me) other.

(** [__radd__], ..., [__rpow__] of [_Callable]: [other op _MathExpression()] *)
Definition Callable_rop (op : arith) (other : value) : M value :=
  me <- MathExpression_init ;; binop op other (VMath me).

Definition is_number (v : value) : bool :=
  match v with
  | VInt _ | VFloat _ => true
  | _ => false
  end.

(** [str]'s own operators: formatting for [%] (it never declines),
    concatenation with a string, repetition by an integer. *)
Definition str_op (op : arith) (s : string) (other : value) : M value :=
  match op, other with
  | Mod, _ =>
      host (match str_format s other with
            | Some (Ok t) => Some (Ok (VStr t))
            | Some (Raise e) => Some (Raise e)
            | None => None
            end)
  | Add, VStr t => ret (VStr (s ++ t))
  | Mul, VInt n => ret (VStr (str_repeat s (Z.to_nat n)))
  | _, _ => ret VNotImplemented
  end.

Definition str_rop (op : arith) (s : string) (other : value) : M value :=
  match op, other with
  | Mul, VInt n => ret (VStr (str_repeat s (Z.to_nat n)))
  | _, _ => ret VNotImplemented
  end.

(** [type(self).__op__(self, other)]; a type without the method
    answers like one that declines. *)
Definition forward_arith (op : arith) (self other : value) : M value :=
  match self with
  | VInt _ | VFloat _ =>
      if is_number other then host (num_arith op self other)
      else ret VNotImplemented
  | VStr s => str_op op s other
  | VExpr Placeholder => Callable_op op other
  | VMath l => MathExpression_op op l other
  | VExpr (Chain _ _) | VObj _ | VNotImplemented => ret VNotImplemented
  end.

(** [type(self).__rop__(self, other)], [self] being the right operand.
    Two numbers are settled by the forward step. *)
Definition reflected_arith (op : arith) (self other : value) : M value :=
  match self with
  | VInt _ | VFloat _ => ret VNotImplemented
  | VStr s => str_rop op s other
  | VExpr Placeholder => Callable_rop op other
  | VMath l => MathExpression_rop op l other
  | VExpr (Chain _ _) | VObj _ | VNotImplemented => ret VNotImplemented
  end.

Definition dispatch_arith (op : arith) (a b : value) : M value :=
  r <- forward_arith op a b ;;
  match r with
  | VNotImplemented =>
      if decide (type_of a = type_of b) then raise UnsupportedOperation
      else
        r' <- reflected_arith op b a ;;
        match r' with
        | VNotImplemented => raise UnsupportedOperation
        | _ => ret r'
        end
  | _ => ret r
  end.
End Protocol.

(** [a op b] for the seven arithmetic operators.  The methods of
    [_Callable] re-enter the protocol, hence the budget. *)
Fixpoint binary_arith (fuel : nat) (op : arith) (a b : value) : M value :=
  match fuel with
  | O => fun _ => None
  | S fuel' => dispatch_arith (binary_arith fuel') op a b
  end.

Fixpoint call_binary (fuel : nat) (f : binary_callable) (first second : value)
  : M value :=
  match f with
  | Operator op => binary_arith fuel op first second
  | Flip callback => call_binary fuel callback second first
  end.

Definition partial_call (fuel : nat) (p : partial cls) (arg : value) : M value :=
  call_binary fuel (func p) (bound p) arg.

Definition operations (self : loc) : M (list (partial cls)) :=
  fun h => match h !! self with
           | Some ops => Some (Ok ops, h)
           | None => None
           end.

(** [_MathExpression.__call__], on an argument list *)
Definition MathExpression_call (fuel : nat) (self : loc) (args : list value)
  : M value :=
  match args with
  | [number] =>
      ops <- operations self ;;
      match ops with
      | [] => raise EmptyExpressionError
      | first_operation :: rest_of_the_operations =>
          first <- partial_call fuel first_operation number ;;
          reduce (fun partial_result operation =>
                    partial_call fuel operation partial_result)
                 rest_of_the_operations first
      end
  | _ => raise ArityError
  end.
(** Calling a value [f] on an argument list *)
Definition call (fuel : nat) (f : value) (args : list value) : M value :=
  match f with
  | VExpr e => host (Some (Expression_call e args))
  | VMath l => MathExpression_call fuel l args
  | _ => raise (TypeError NotCallable)
  end.

(** *** Reading an arithmetic expression *)

(** Running recorded steps over an input, in recording order. *)
Definition run_steps (fuel : nat) (steps : list (partial cls)) (v : value)
  : M value :=
  reduce (fun partial_result operation =>
            partial_call fuel operation partial_result)
         steps v.

(** Every arithmetic expression of the heap has a recorded step. *)
Definition nonempty_heap (h : heap cls) : Prop :=
  Forall (fun ops => ops <> []) h.

(** The operand's own arithmetic operator declines an object of the
    library: every type but the library's own and, for [%], [str]. *)
Definition declines_arith (op : arith) (a : value) : bool :=
  match a with
  | VInt _ | VFloat _ | VExpr (Chain _ _) | VObj _ | VNotImplemented => true
  | VStr _ =>
      match op with
      | Mod => false
      | _ => true
      end
  | VExpr Placeholder | VMath _ => false
  end.

(** A computation that sees the heap only through its size: on two
    heaps of one size it has the same outcome and leaves heaps of one
    size. *)
Definition size_determined {A} (m : M A) : Prop :=
  forall h1 h2, length h1 = length h2 ->
    match m h1, m h2 with
    | Some (r1, h1'), Some (r2, h2') => r1 = r2 /\ length h1' = length h2'
    | None, None => True
    | _, _ => False
    end.

(** Two readings of the protocol that agree wherever a method of the
    placeholder re-enters it: with a fresh arithmetic expression on
    one side. *)
Definition agree_on_math (f g : arith -> value -> value -> M value) : Prop :=
  (forall op l x h, f op (VMath l) x h = g op (VMath l) x h)
  /\ (forall op l x h, declines_arith op x = true ->
                       f op x (VMath l) h = g op x (VMath l) h).

(** What the protocol needs of its re-entry to keep every recorded
    list non-empty: called on a fresh, still empty, expression it
    leaves a non-empty heap. *)
Definition fills_fresh (f : arith -> value -> value -> M value) : Prop :=
  (forall op x h r h',
      nonempty_heap h ->
      f op (VMath (length h)) x (h ++ [[]]) = Some (r, h') ->
      nonempty_heap h')
  /\ (forall op x h r h',
         declines_arith op x = true ->
         nonempty_heap h ->
         f op x (VMath (length h)) (h ++ [[]]) = Some (r, h') ->
         nonempty_heap h').
End Arithmetic.

(** ** A concrete host: Python's numbers

    Integers are exact.  Floats are IEEE binary64; an integer meets a
    float only when it converts exactly (magnitude at most 2^53).  What
    is not covered (float [//], [%] and [**], negative integer powers,
    larger conversions, string formatting) is left outside the model. *)

Definition float_of_Z (n : Z) : float :=
  if n <? 0 then PrimFloat.opp (PrimFloat.of_uint63 (Uint63.of_Z (- n)))
  else PrimFloat.of_uint63 (Uint63.of_Z n).

Definition exact_float (n : Z) : option float :=
  if Z.abs n <=? 2 ^ 53 then Some (float_of_Z n) else None.

Definition as_float {cls} (v : value cls) : option float :=
  match v with
  | VInt n => exact_float n
  | VFloat x => Some x
  | _ => None
  end.

Definition int_arith {cls} (op : arith) (x y : Z) : option (result (value cls)) :=
  match op with
  | Add => Some (Ok (VInt (x + y)))
  | Sub => Some (Ok (VInt (x - y)))
  | Mul => Some (Ok (VInt (x * y)))
  | FloorDiv =>
      Some (if y =? 0 then Raise ZeroDivisionError else Ok (VInt (x / y)))
  | Mod =>
      Some (if y =? 0 then Raise ZeroDivisionError else Ok (VInt (x mod y)))
  | TrueDiv =>
      if y =? 0 then Some (Raise ZeroDivisionError)
      else
        match exact_float x, exact_float y with
        | Some fx, Some fy => Some (Ok (VFloat (PrimFloat.div fx fy)))
        | _, _ => None
        end
  | Pow => if 0 <=? y then Some (Ok (VInt (x ^ y))) else None
  end.

Definition float_arith {cls} (op : arith) (x y : float)
  : option (result (value cls)) :=
  match op with
  | Add => Some (Ok (VFloat (PrimFloat.add x y)))
  | Sub => Some (Ok (VFloat (PrimFloat.sub x y)))
  | Mul => Some (Ok (VFloat (PrimFloat.mul x y)))
  | TrueDiv =>
      Some (if PrimFloat.eqb y PrimFloat.zero then Raise ZeroDivisionError
            else Ok (VFloat (PrimFloat.div x y)))
  | FloorDiv | Mod | Pow => None
  end.

Definition python_num_arith {cls} (op : arith) (a b : value cls)
  : option (result (value cls)) :=
  match a, b with
  | VInt x, VInt y => int_arith op x y
  | _, _ =>
      match as_float a, as_float b with
      | Some x, Some y => float_arith op x y
      | _, _ => None
      end
  end.

(** ** The classes of the test-suite
    ([tests/test_callable/test_and.py], [test_or.py]) *)

Inductive test_cls : Type :=
| ImplementsAnd | ImplementsRAnd | ImplementsOr | ImplementsROr.

#[global] Instance test_cls_eq_dec : EqDecision test_cls.
Proof. solve_decision. Defined.

(** [isinstance(other, str) and len(other) or NotImplemented] *)
Definition len_or_NotImplemented (other : value test_cls)
  : result (value test_cls) :=
  match other with
  | VStr s =>
      let n := Z.of_nat (String.length s) in
      Ok (if n =? 0 then VNotImplemented else VInt n)
  | _ => Ok VNotImplemented
  end.

(** [isinstance(other, int) and str(other) or NotImplemented] *)
Definition str_or_NotImplemented (other : value test_cls)
  : result (value test_cls) :=
  match other with
  | VInt n => Ok (VStr (repr_int n))
  | _ => Ok VNotImplemented
  end.

Definition test_class_def (c : test_cls) : user_class test_cls :=
  match c with
  | ImplementsAnd =>
      {| cls_repr := "hello"; cls_and := Some len_or_NotImplemented;
         cls_rand := None; cls_or := None; cls_ror := None |}
  | ImplementsRAnd =>
      {| cls_repr := "howdy"; cls_and := None;
         cls_rand := Some str_or_NotImplemented; cls_or := None;
         cls_ror := None |}
  | ImplementsOr =>
      {| cls_repr := "hello"; cls_and := None; cls_rand := None;
         cls_or := Some len_or_NotImplemented; cls_ror := None |}
  | ImplementsROr =>
      {| cls_repr := "howdy"; cls_and := None; cls_rand := None;
         cls_or := None; cls_ror := Some str_or_NotImplemented |}
  end.

(** The four classes derive from [object]. *)
#[global] Instance test_classes : UserClasses test_cls :=
  {| class_def := test_class_def;
     cls_subclass := fun _ _ => false;
     cls_overrides := fun _ _ _ => false |}.

(** A class whose [__and__] and [__or__] answer 1 to an instance of
    the class and decline anything else, and a subclass of it that
    adds [__rand__] and [__ror__] answering 2. *)
Inductive family_cls : Type := Base | Derived.

#[global] Instance family_cls_eq_dec : EqDecision family_cls.
Proof. solve_decision. Defined.

Definition one_for_instances (other : value family_cls)
  : result (value family_cls) :=
  match other with
  | VObj _ => Ok (VInt 1)
  | _ => Ok VNotImplemented
  end.

Definition family_class_def (c : family_cls) : user_class family_cls :=
  match c with
  | Base =>
      {| cls_repr := "base"; cls_and := Some one_for_instances;
         cls_rand := None; cls_or := Some one_for_instances;
         cls_ror := None |}
  | Derived =>
      {| cls_repr := "derived"; cls_and := Some one_for_instances;
         cls_rand := Some (fun _ => Ok (VInt 2));
         cls_or := Some one_for_instances;
         cls_ror := Some (fun _ => Ok (VInt 2)) |}
  end.

Definition family_subclass (c d : family_cls) : bool :=
  match c, d with
  | Derived, Base => true
  | _, _ => false
  end.

#[global] Instance family_classes : UserClasses family_cls :=
  {| class_def := family_class_def;
     cls_subclass := family_subclass;
     cls_overrides := fun _ => family_subclass |}.

(** The host the examples run on.  Its [repr] of a string is right for
    plain text without quotes or escapes; floats and arithmetic
    expressions, whose [repr] the library never fixes, print as a
    fixed token. *)
Definition test_repr (v : value test_cls) : string :=
  match v with
  | VStr s => "'" ++ s ++ "'"
  | _ => "<object>"
  end.

#[global] Instance test_host : Host test_cls :=
  {| builtin_repr := test_repr;
     num_arith := python_num_arith;
     str_format := fun _ _ => None |}.

Definition empty_heap : heap test_cls := [].

(** [((10 ** 5) / (_ % 3) * 9)] of [test_complex_expression] *)
Definition complex_expression (fuel : nat) : M test_cls (value test_cls) :=
  p <- binary_arith fuel Pow (VInt 10) (VInt 5) ;;
  m <- binary_arith fuel Mod (VExpr Placeholder) (VInt 3) ;;
  d <- binary_arith fuel TrueDiv p m ;;
  binary_arith fuel Mul d (VInt 9).

(** ** Shapes of chains, steps and heaps *)

Section Shapes.
Context {cls : Type}.

Definition is_and (o : operation cls) : bool :=
  match o with
  | SomethingAnd _ | AndSomething _ => true
  | SomethingOr _ | OrSomething _ => false
  end.

(** The chain's last operation is an [|]. *)
Definition ends_in_or (e : expr cls) : bool :=
  match e with
  | Chain _ (SomethingOr _ | OrSomething _) => true
  | _ => false
  end.

Definition int_operand (o : operation cls) : bool :=
  match o with
  | SomethingAnd (VInt _) | AndSomething (VInt _)
  | SomethingOr (VInt _) | OrSomething (VInt _) => true
  | _ => false
  end.

(** Every fixed operand of the chain is an integer. *)
Fixpoint int_chain (e : expr cls) : bool :=
  match e with
  | Placeholder => true
  | Chain previous operation => int_chain previous && int_operand operation
  end.

(** Every fixed operand of the steps is a number. *)
Definition number_steps (steps : list (partial cls)) : bool :=
  forallb (fun s => is_number (bound s)) steps.

(** [h'] holds every arithmetic expression of [h], each with its
    recorded steps kept in place and possibly more after them. *)
Definition heap_extends (h h' : heap cls) : Prop :=
  forall l ops, h !! l = Some ops -> exists more, h' !! l = Some (ops ++ more).

Definition only_appends {A} (m : M cls A) : Prop :=
  forall h r h', m h = Some (r, h') -> heap_extends h h'.
End Shapes.

(** * Properties *)

Section BinaryOperator.
Context {cls : Type} `{!UserClasses cls} `{!Host cls}.
Implicit Types (a b x : value cls) (m : value cls -> result (value cls)).

Lemma forward_then_answer op a b m otherwise :
  forward_bit op a = Some m -> m b <> Ok VNotImplemented ->
  forward_then op a b otherwise = m b.
Proof.
  intros Hm Hb. unfold forward_then. rewrite Hm.
  destruct (m b) as [[]|]; congruence.
Qed.

Lemma forward_then_declined op a b otherwise :
  declines (forward_bit op a) b = true ->
  forward_then op a b otherwise = otherwise.
Proof.
  unfold forward_then, declines.
  destruct (forward_bit op a) as [m|]; [|reflexivity].
  destruct (m b) as [[]|]; congruence.
Qed.

Lemma reflected_first_types op a b :
  reflected_first op a b = true -> type_of a <> type_of b.
Proof.
  destruct a as [| | | |d| |], b as [| | | |c| |]; try discriminate.
  cbn [reflected_first type_of]. destruct (decide (c = d)); [discriminate|].
  intros _. congruence.
Qed.

(** Without priority of the right operand, or when its reflected
    method declines, the left operand's own answer is the result. *)
Lemma binary_op_forward op a b m :
  forward_bit op a = Some m -> m b <> Ok VNotImplemented ->
  reflected_first op a b = false \/ declines (reflected_bit op b) a = true ->
  binary_op op a b = m b.
Proof.
  intros Hm Hb Hp. unfold binary_op.
  destruct (reflected_first op a b); [|now apply forward_then_answer].
  destruct Hp as [Hp|Hp]; [discriminate|]. unfold declines in Hp.
  destruct (reflected_bit op b) as [m'|]; [|now apply forward_then_answer].
  destruct (m' a) as [[]|]; try discriminate Hp.
  now apply forward_then_answer.
Qed.

(** With priority, the right operand's reflected answer is the result. *)
Lemma binary_op_priority op a b m :
  reflected_first op a b = true ->
  reflected_bit op b = Some m -> m a <> Ok VNotImplemented ->
  binary_op op a b = m a.
Proof.
  intros Hp Hm Ha. unfold binary_op. rewrite Hp, Hm.
  destruct (m a) as [[]|]; congruence.
Qed.

Lemma binary_op_declined op a b :
  declines (forward_bit op a) b = true ->
  binary_op op a b = try_reflected op a b.
Proof.
  intros Hd. unfold binary_op.
  destruct (reflected_first op a b) eqn:Hp;
    [|now apply forward_then_declined].
  apply reflected_first_types in Hp.
  rewrite !forward_then_declined by assumption.
  unfold try_reflected. rewrite decide_False by assumption.
  destruct (reflected_bit op b) as [m|]; [|reflexivity].
  now destruct (m a) as [[]|].
Qed.

Lemma binary_op_reflected op a b m :
  declines (forward_bit op a) b = true -> type_of a <> type_of b ->
  reflected_bit op b = Some m -> m a <> Ok VNotImplemented ->
  binary_op op a b = m a.
Proof.
  intros Hd Ht Hm Ha. rewrite binary_op_declined by assumption.
  unfold try_reflected. rewrite decide_False by assumption. rewrite Hm.
  destruct (m a) as [[]|]; congruence.
Qed.


Lemma type_of_expr_inv a e : type_of a = type_of (VExpr e) -> exists e', a = VExpr e'.
Proof. destruct a as [| | | | |e'|]; try (destruct e; discriminate). eauto. Qed.

(** [e op operand]: the expression's own method answers. *)
Lemma expression_on_the_left op (e : expr cls) operand :
  binary_op op (VExpr e) operand = Ok (VExpr (Chain e (operand_right op operand))).
Proof. destruct op; reflexivity. Qed.

(** [operand op e] when the operand's own method is absent or declines:
    the expression's reflected method answers. *)
Lemma expression_on_the_right op (e : expr cls) operand :
  declines (forward_bit op operand) (VExpr e) = true ->
  binary_op op operand (VExpr e) = Ok (VExpr (Chain e (operand_left op operand))).
Proof.
  intros Hd. destruct operand as [n|f|s|  |c|e'|l];
    try (destruct op, e; reflexivity).
  - (* user class *)
    erewrite binary_op_reflected; [| exact Hd | | reflexivity |].
    + destruct op; reflexivity.
    + destruct e; discriminate.
    + destruct op; discriminate.
  - (* an expression never declines *)
    destruct op; discriminate.
Qed.
End BinaryOperator.

Section ChainProperties.
Context {cls : Type} `{!UserClasses cls} `{!Host cls}.
Implicit Types (P e : expr cls) (O : operation cls) (x y : value cls).

(** C5: the placeholder is the identity expression: called with one
    value it returns that value unchanged, its string form is the
    single token "_", and its precedence is 0. *)
Theorem placeholder_identity (v : value cls) :
  Expression_call Placeholder [v] = Ok v
  /\ Expression_repr (cls := cls) Placeholder = "_"%string
  /\ Expression_precedence (cls := cls) Placeholder = 0.
Proof. repeat split. Qed.

(** C1: rendering a chain of a previous expression P and a trailing
    operation O embeds P's string directly when P's precedence is at
    most O's, and in parentheses otherwise; [(9 | _) & 6 & 7] renders
    as "(9 | _) & 6 & 7" and [9 | (_ & 6) & 7] as "9 | _ & 6 & 7". *)
Theorem chain_repr_precedence P O :
  (Expression_precedence P <= precedence O ->
   Expression_repr (Chain P O) = as_string O (Expression_repr P))
  /\ (precedence O < Expression_precedence P ->
      Expression_repr (Chain P O)
      = as_string O ("(" ++ Expression_repr P ++ ")")%string)
  /\ (exists e, or_then_and = Ok (VExpr e)
                /\ Expression_repr e = "(9 | _) & 6 & 7"%string)
  /\ (exists e, and_then_or = Ok (VExpr e)
                /\ Expression_repr e = "9 | _ & 6 & 7"%string).
Proof.
  split; [|split; [|split]].
  - intros Hle. cbn [Expression_repr].
    apply Z.leb_le in Hle. fold (Expression_repr P). now rewrite Hle.
  - intros Hlt. cbn [Expression_repr].
    apply Z.leb_gt in Hlt. fold (Expression_repr P). now rewrite Hlt.
  - eexists. split; reflexivity.
  - eexists. split; reflexivity.
Qed.

Lemma call_chain P O x :
  Expression_call (Chain P O) [x]
  = result_bind (Expression_call P [x]) (Operation_call O).
Proof. reflexivity. Qed.

Lemma replay_snoc (ops : list (operation cls)) O x :
  replay (ops ++ [O]) x = result_bind (replay ops x) (Operation_call O).
Proof. unfold replay. now rewrite fold_left_app. Qed.

(** C3: calling a chain applies the previous expression, then the
    trailing operation, to the input, so the recorded operations run
    from root to tip; [60 & _ & 5 & 7] applied to 7 returns 4 and
    renders as "60 & _ & 5 & 7". *)
Theorem chain_call_in_construction_order :
  (forall P O x,
      Expression_call (Chain P O) [x]
      = result_bind (Expression_call P [x]) (Operation_call O))
  /\ (forall e x, Expression_call e [x] = replay (recorded_operations e) x)
  /\ (exists e, and_combination (cls := cls) = Ok (VExpr e)
                /\ Expression_call e [VInt 7] = Ok (VInt 4)
                /\ Expression_repr e = "60 & _ & 5 & 7"%string).
Proof.
  split; [|split].
  - intros. apply call_chain.
  - induction e as [|P IH O]; intros x.
    + reflexivity.
    + rewrite call_chain, IH. cbn [recorded_operations].
      now rewrite replay_snoc.
  - eexists. repeat split.
Qed.
End ChainProperties.

Section DualDispatch.
Context {cls : Type} `{!UserClasses cls} `{!Host cls}.
Implicit Types (P e : expr cls) (O : operation cls) (x y : value cls).

Lemma call_operand_left op P operand x :
  Expression_call (Chain P (operand_left op operand)) [x]
  = result_bind (Expression_call P [x]) (binary_op op operand).
Proof. destruct op; reflexivity. Qed.

Lemma call_operand_right op P operand x :
  Expression_call (Chain P (operand_right op operand)) [x]
  = result_bind (Expression_call P [x]) (fun y => binary_op op y operand).
Proof. destruct op; reflexivity. Qed.

(** C2, amended: for a fixed operand L whose own [&] implementation
    declines the placeholder, [L & _] is the one-step chain holding L
    as left operand, and [(L & _)(x) == L.__and__(x)] on every input x
    that L's implementation does not decline, unless x's type is a
    proper subclass of L's type with a reflected method of its own
    that answers.  For a fixed operand R defining the reflected
    operator, [_ & R] is the one-step chain holding R as right
    operand, and [(_ & R)(x) == R.__rand__(x)] on every input x that
    R's implementation does not decline and whose own [&] is absent or
    declines R (x being of another type), or gives way to R's by the
    subclass rule, or answers the same, as between two integers.
    Likewise for [|].  For the test class whose [__and__] returns the
    length of a string and whose [repr] is "hello",
    [(L & _)("foo") == 3] and the chain renders as "hello & _". *)
Theorem dual_dispatch_on_accepted_input (op : bitop) (L R x : value cls)
    (mL mR : value cls -> result (value cls)) :
  (forward_bit op L = Some mL ->
   mL (VExpr Placeholder) = Ok VNotImplemented ->
   binary_op op L (VExpr Placeholder)
   = Ok (VExpr (Chain Placeholder (operand_left op L)))
   /\ (mL x <> Ok VNotImplemented ->
       reflected_first op L x = false
       \/ declines (reflected_bit op x) L = true ->
       Expression_call (Chain Placeholder (operand_left op L)) [x] = mL x))
  /\ (reflected_bit op R = Some mR ->
      binary_op op (VExpr Placeholder) R
      = Ok (VExpr (Chain Placeholder (operand_right op R)))
      /\ (mR x <> Ok VNotImplemented ->
          (declines (forward_bit op x) R = true /\ type_of x <> type_of R)
          \/ reflected_first op x R = true
          \/ (exists mx, forward_bit op x = Some mx /\ mx R = mR x) ->
          Expression_call (Chain Placeholder (operand_right op R)) [x] = mR x))
  /\ (forall a b : Z,
         exists m,
           reflected_bit (cls := cls) op (VInt b) = Some m
           /\ Expression_call (Chain Placeholder (operand_right op (VInt b)))
                [VInt a]
              = m (VInt a))
  /\ (let hello := VObj ImplementsAnd in
      let chain := Chain Placeholder (SomethingAnd hello) in
      binary_op BitAnd hello (VExpr Placeholder) = Ok (VExpr chain)
      /\ forward_bit BitAnd hello = Some len_or_NotImplemented
      /\ Expression_call chain [VStr "foo"] = Ok (VInt 3)
      /\ Expression_repr chain = "hello & _"%string).
Proof.
  split; [|split; [|split]].
  - intros HL Hph. split.
    + apply expression_on_the_right. unfold declines. now rewrite HL, Hph.
    + intros Hx Hp. rewrite call_operand_left.
      cbn [Expression_call result_bind]. now apply binary_op_forward.
  - intros HR. split.
    + apply expression_on_the_left.
    + intros Hx Hway. rewrite call_operand_right.
      cbn [Expression_call result_bind].
      destruct Hway as [[Hd Ht]|[Hp|(mx & Hmx & Hsame)]].
      * now apply binary_op_reflected.
      * now apply binary_op_priority.
      * destruct (reflected_first op x R) eqn:Hp;
          [now apply binary_op_priority|].
        rewrite <- Hsame. apply binary_op_forward; [assumption| |now left].
        now rewrite Hsame.
  - intros a b. eexists. split; [reflexivity|]. now destruct op.
  - repeat split.
Qed.

End DualDispatch.

(** C2 as stated fails on each side.  On the left: [_ImplementsAnd]
    declines the placeholder, yet on the input 5, which it declines
    too, calling [_ImplementsAnd() & _] raises while [__and__] itself
    answers [NotImplemented]; and [Base() & _] called on an instance of
    the subclass returns the subclass's [__rand__] answer, 2, not
    [Base.__and__]'s, 1.  On the right: [_ & _ImplementsRAnd()] called
    on "foo" raises while [__rand__] answers [NotImplemented]; and
    [_ & Derived()] called on another instance of the subclass is
    answered by the input's own [__and__], 1, not by the operand's
    [__rand__], 2. *)
Lemma dual_dispatch_declined_input :
  ~ (forall m e,
        forward_bit BitAnd (VObj ImplementsAnd) = Some m ->
        m (VExpr Placeholder) = Ok VNotImplemented ->
        binary_op BitAnd (VObj ImplementsAnd) (VExpr Placeholder)
        = Ok (VExpr e) ->
        Expression_call e [VInt 5] = m (VInt 5))
  /\ ~ (forall m e,
           forward_bit BitAnd (VObj Base) = Some m ->
           m (VExpr Placeholder) = Ok VNotImplemented ->
           binary_op BitAnd (VObj Base) (VExpr Placeholder) = Ok (VExpr e) ->
           Expression_call e [VObj Derived] = m (VObj Derived))
  /\ ~ (forall m e,
           reflected_bit BitAnd (VObj ImplementsRAnd) = Some m ->
           binary_op BitAnd (VExpr Placeholder) (VObj ImplementsRAnd)
           = Ok (VExpr e) ->
           Expression_call e [VStr "foo"] = m (VStr "foo"))
  /\ ~ (forall m e,
           reflected_bit BitAnd (VObj Derived) = Some m ->
           binary_op BitAnd (VExpr Placeholder) (VObj Derived)
           = Ok (VExpr e) ->
           Expression_call e [VObj Derived] = m (VObj Derived)).
Proof.
  repeat apply conj; intros H.
  - specialize (H len_or_NotImplemented _ eq_refl eq_refl eq_refl).
    discriminate H.
  - specialize (H one_for_instances _ eq_refl eq_refl eq_refl).
    discriminate H.
  - specialize (H str_or_NotImplemented _ eq_refl eq_refl).
    discriminate H.
  - specialize (H _ _ eq_refl eq_refl). discriminate H.
Qed.

Section ArithmeticProtocol.
Context {cls : Type} `{!UserClasses cls} `{!Host cls}.
Implicit Types (a b x other : value cls) (h : heap cls) (op : arith).

Lemma fresh_lookup h (ops : list (partial cls)) :
  (h ++ [ops]) !! length h = Some ops.
Proof. now apply list_lookup_middle. Qed.

Lemma fresh_insert h (ops ops' : list (partial cls)) :
  <[length h := ops']> (h ++ [ops]) = h ++ [ops'].
Proof.
  replace (length h) with (length h + 0)%nat at 1 by lia.
  now rewrite insert_app_r.
Qed.

Lemma add_operation_eval l f other h ops :
  h !! l = Some ops ->
  add_operation l f other h
  = Some (Ok (VMath l), <[l := ops ++ [Partial f other]]> h).
Proof. intros Hl. unfold add_operation. now rewrite Hl. Qed.

Lemma add_operation_dangling l f other h :
  h !! l = None -> add_operation l f other h = None.
Proof. intros Hl. unfold add_operation. now rewrite Hl. Qed.

(** [e op other] on an arithmetic expression: its own method answers. *)
Lemma binary_arith_math_left n op l other h :
  binary_arith (S n) op (VMath l) other h
  = add_operation l (Flip (Operator op)) other h.
Proof.
  cbn [binary_arith]. unfold dispatch_arith, bind.
  cbn [forward_arith]. unfold MathExpression_op, add_operation.
  now destruct (h !! l).
Qed.

(** [a op e] when [a]'s own operator declines: the reflected method. *)
Lemma binary_arith_math_right n op a l h :
  declines_arith op a = true ->
  binary_arith (S n) op a (VMath l) h
  = add_operation l (Operator op) a h.
Proof.
  intros Ha. cbn [binary_arith]. unfold dispatch_arith, bind.
  destruct a as [z|f|s| |c|[|P O]|l']; try discriminate Ha;
    cbn [forward_arith is_number ret];
    try (unfold reflected_arith, MathExpression_rop, add_operation;
         rewrite decide_False by discriminate;
         now destruct (h !! l)).
  (* a string *)
  destruct op; try discriminate Ha; cbn [str_op ret];
    unfold reflected_arith, MathExpression_rop, add_operation;
    rewrite decide_False by discriminate;
    now destruct (h !! l).
Qed.

(** [_MathExpression() op other] *)
Lemma Callable_op_eval n op other h :
  Callable_op (binary_arith (S n)) op other h
  = Some (Ok (VMath (length h)),
          h ++ [[Partial (Flip (Operator op)) other]]).
Proof.
  unfold Callable_op, bind, MathExpression_init.
  rewrite binary_arith_math_left.
  erewrite add_operation_eval by apply fresh_lookup.
  now rewrite fresh_insert.
Qed.

(** [other op _MathExpression()] *)
Lemma Callable_rop_eval n op other h :
  declines_arith op other = true ->
  Callable_rop (binary_arith (S n)) op other h
  = Some (Ok (VMath (length h)), h ++ [[Partial (Operator op) other]]).
Proof.
  intros Ho. unfold Callable_rop, bind, MathExpression_init.
  rewrite binary_arith_math_right by assumption.
  erewrite add_operation_eval by apply fresh_lookup.
  now rewrite fresh_insert.
Qed.

(** [_ op other] *)
Lemma binary_arith_placeholder_left n op other h :
  binary_arith (S (S n)) op (VExpr Placeholder) other h
  = Some (Ok (VMath (length h)),
          h ++ [[Partial (Flip (Operator op)) other]]).
Proof.
  change (binary_arith (S (S n)) op (VExpr Placeholder) other h)
    with (dispatch_arith (binary_arith (S n)) op (VExpr Placeholder) other h).
  unfold dispatch_arith, bind. cbn [forward_arith].
  now rewrite Callable_op_eval.
Qed.

Lemma forward_declines binop op a b h :
  declines_arith op a = true -> is_number b = false ->
  (forall s, b <> VStr s) ->
  forward_arith binop op a b h = Some (Ok VNotImplemented, h).
Proof.
  intros Ha Hb Hs.
  destruct a as [z|f|s| |c|[|P O]|l']; try discriminate Ha;
    cbn [forward_arith]; rewrite ?Hb; try reflexivity.
  destruct op; try discriminate Ha; destruct b; try reflexivity;
    try discriminate Hb; now destruct (Hs s0).
Qed.

(** [a op _] when [a]'s own operator declines *)
Lemma binary_arith_placeholder_right n op a h :
  declines_arith op a = true ->
  binary_arith (S (S n)) op a (VExpr Placeholder) h
  = Some (Ok (VMath (length h)), h ++ [[Partial (Operator op) a]]).
Proof.
  intros Ha.
  change (binary_arith (S (S n)) op a (VExpr Placeholder) h)
    with (dispatch_arith (binary_arith (S n)) op a (VExpr Placeholder) h).
  unfold dispatch_arith, bind.
  rewrite forward_declines by (try assumption; try reflexivity; discriminate).
  rewrite decide_False.
  - cbn [reflected_arith]. now rewrite Callable_rop_eval.
  - destruct a as [| | | | |[|]|]; try discriminate.
Qed.
End ArithmeticProtocol.

Section Fuel.
Context {cls : Type} `{!UserClasses cls} `{!Host cls}.
Implicit Types (a b x other : value cls) (h : heap cls) (op : arith).
Implicit Types f g : arith -> value cls -> value cls -> M cls (value cls).

Lemma forward_arith_ext f g op a b h :
  agree_on_math f g ->
  forward_arith f op a b h = forward_arith g op a b h.
Proof.
  intros [H1 _]. destruct a as [z|fl|s| |c|[|P O]|l]; try reflexivity.
  cbn [forward_arith]. unfold Callable_op, bind, MathExpression_init.
  apply H1.
Qed.

Lemma forward_arith_declined f op a h h' :
  forward_arith f op a (VExpr Placeholder) h = Some (Ok VNotImplemented, h') ->
  type_of a <> type_of (VExpr (cls := cls) Placeholder) ->
  declines_arith op a = true.
Proof.
  intros Hf Ht. destruct a as [z|fl|s| |c|[|P O]|l]; try reflexivity.
  - destruct op; try reflexivity. cbn in Hf. unfold host in Hf.
    destruct (str_format s (VExpr Placeholder)) as [[t|e]|]; discriminate Hf.
  - now destruct Ht.
  - cbn in Hf. unfold MathExpression_op, add_operation in Hf.
    destruct (h !! l); discriminate Hf.
Qed.

Lemma reflected_arith_ext f g op a b h :
  agree_on_math f g ->
  (b = VExpr Placeholder -> declines_arith op a = true) ->
  reflected_arith f op b a h = reflected_arith g op b a h.
Proof.
  intros [_ H2] Ha. destruct b as [z|fl|s| |c|[|P O]|l]; try reflexivity.
  cbn [reflected_arith]. unfold Callable_rop, bind, MathExpression_init.
  apply H2. now apply Ha.
Qed.

Lemma dispatch_arith_ext f g op a b h :
  agree_on_math f g ->
  dispatch_arith f op a b h = dispatch_arith g op a b h.
Proof.
  intros Hfg. unfold dispatch_arith, bind.
  rewrite (forward_arith_ext f g) by assumption.
  destruct (forward_arith g op a b h) as [[[r|e] h']|] eqn:Hf; try reflexivity.
  destruct r; try reflexivity.
  destruct (decide (type_of a = type_of b)) as [|Ht]; [reflexivity|].
  rewrite (reflected_arith_ext f g) by
    (try assumption; intros ->; eapply forward_arith_declined; eassumption).
  reflexivity.
Qed.

Lemma binary_arith_agree n : agree_on_math (binary_arith (S n)) (binary_arith 1).
Proof.
  split.
  - intros. now rewrite !binary_arith_math_left.
  - intros. now rewrite !binary_arith_math_right.
Qed.

(** A budget of two is as good as any larger one. *)
Lemma binary_arith_fuel n op a b h :
  binary_arith (S (S n)) op a b h = binary_arith 2 op a b h.
Proof. apply dispatch_arith_ext, binary_arith_agree. Qed.
End Fuel.

Section NonEmpty.
Context {cls : Type} `{!UserClasses cls} `{!Host cls}.
Implicit Types (a b x other : value cls) (h : heap cls) (op : arith).
Implicit Types f g : arith -> value cls -> value cls -> M cls (value cls).

Lemma nonempty_fresh h (p : partial cls) :
  nonempty_heap h -> nonempty_heap (h ++ [[p]]).
Proof.
  intros Hh. apply Forall_app. split; [assumption|].
  now repeat constructor.
Qed.

Lemma add_operation_nonempty l c other h r h' :
  nonempty_heap h -> add_operation l c other h = Some (r, h') ->
  nonempty_heap h'.
Proof.
  intros Hh. unfold add_operation.
  destruct (h !! l) as [ops|]; [|discriminate].
  intros [= _ <-]. apply Forall_insert; [assumption|].
  now destruct ops.
Qed.

Lemma host_unchanged {A} (o : option (result A)) h r h' :
  host o h = Some (r, h') -> h' = h.
Proof. unfold host. destruct o; [|discriminate]. now intros [= _ <-]. Qed.

Lemma str_op_unchanged op s other h r h' :
  str_op op s other h = Some (r, h') -> h' = h.
Proof.
  destruct op, other; cbn [str_op ret]; try (now intros [= _ <-]);
    apply host_unchanged.
Qed.

Lemma str_rop_unchanged op s other h r h' :
  str_rop (cls := cls) op s other h = Some (r, h') -> h' = h.
Proof. destruct op, other; cbn [str_rop ret]; now intros [= _ <-]. Qed.

Lemma forward_arith_nonempty f op a b h r h' :
  fills_fresh f -> nonempty_heap h ->
  forward_arith f op a b h = Some (r, h') -> nonempty_heap h'.
Proof.
  intros [H1 _] Hh.
  destruct a as [z|fl|s| |c|[|P O]|l]; cbn [forward_arith ret];
    try (now intros [= _ <-]).
  - destruct (is_number b); [|now intros [= _ <-]].
    intros Hr. now rewrite (host_unchanged _ _ _ _ Hr).
  - destruct (is_number b); [|now intros [= _ <-]].
    intros Hr. now rewrite (host_unchanged _ _ _ _ Hr).
  - intros Hr. now rewrite (str_op_unchanged _ _ _ _ _ _ Hr).
  - unfold Callable_op, bind, MathExpression_init. now apply H1.
  - now apply add_operation_nonempty.
Qed.

Lemma reflected_arith_nonempty f op a b h r h' :
  fills_fresh f -> nonempty_heap h ->
  (b = VExpr Placeholder -> declines_arith op a = true) ->
  reflected_arith f op b a h = Some (r, h') -> nonempty_heap h'.
Proof.
  intros [_ H2] Hh Ha.
  destruct b as [z|fl|s| |c|[|P O]|l]; cbn [reflected_arith ret];
    try (now intros [= _ <-]).
  - intros Hr. now rewrite (str_rop_unchanged _ _ _ _ _ _ Hr).
  - unfold Callable_rop, bind, MathExpression_init. apply H2; auto.
  - now apply add_operation_nonempty.
Qed.

Lemma forward_arith_declined_unchanged f op a h h' :
  forward_arith f op a (VExpr Placeholder) h = Some (Ok VNotImplemented, h') ->
  type_of a <> type_of (VExpr (cls := cls) Placeholder) ->
  h' = h.
Proof.
  intros Hf Ht. pose proof (forward_arith_declined _ _ _ _ _ Hf Ht) as Ha.
  rewrite forward_declines in Hf by (try assumption; try reflexivity; discriminate).
  now injection Hf.
Qed.

Lemma dispatch_arith_nonempty f op a b h r h' :
  fills_fresh f -> nonempty_heap h ->
  dispatch_arith f op a b h = Some (r, h') -> nonempty_heap h'.
Proof.
  intros Hf Hh. unfold dispatch_arith, bind.
  destruct (forward_arith f op a b h) as [[[v|e] h1]|] eqn:Hfw;
    [| intros [= _ <-]; eapply forward_arith_nonempty; eassumption
     | discriminate].
  assert (nonempty_heap h1) as Hh1
      by (eapply forward_arith_nonempty; eassumption).
  destruct v; try (now intros [= _ <-]).
  destruct (decide (type_of a = type_of b)) as [|Ht]; [now intros [= _ <-]|].
  destruct (reflected_arith f op b a h1) as [[[v'|e'] h2]|] eqn:Hrf;
    [| |discriminate].
  - assert (nonempty_heap h2) as Hh2.
    { eapply reflected_arith_nonempty; [exact Hf|exact Hh1| |exact Hrf].
      intros ->. eapply forward_arith_declined; eassumption. }
    destruct v'; now intros [= _ <-].
  - intros [= _ <-].
    eapply reflected_arith_nonempty; [exact Hf|exact Hh1| |exact Hrf].
    intros ->. eapply forward_arith_declined; eassumption.
Qed.

Lemma binary_arith_fills_fresh n : fills_fresh (binary_arith n).
Proof.
  destruct n as [|n]; [split; discriminate|]. split.
  - intros op x h r h' Hh. rewrite binary_arith_math_left.
    erewrite add_operation_eval by apply fresh_lookup.
    rewrite fresh_insert. intros [= _ <-]. now apply nonempty_fresh.
  - intros op x h r h' Hx Hh. rewrite binary_arith_math_right by assumption.
    erewrite add_operation_eval by apply fresh_lookup.
    rewrite fresh_insert. intros [= _ <-]. now apply nonempty_fresh.
Qed.

(** Every operator application keeps the recorded lists non-empty. *)
Lemma binary_arith_nonempty n op a b h r h' :
  nonempty_heap h -> binary_arith n op a b h = Some (r, h') ->
  nonempty_heap h'.
Proof.
  destruct n as [|n]; [discriminate|]. cbn [binary_arith].
  apply dispatch_arith_nonempty, binary_arith_fills_fresh.
Qed.

Lemma call_binary_nonempty n c x y h r h' :
  nonempty_heap h -> call_binary n c x y h = Some (r, h') ->
  nonempty_heap h'.
Proof.
  revert x y. induction c as [op|c IH]; intros x y; cbn [call_binary].
  - apply binary_arith_nonempty.
  - apply IH.
Qed.

Lemma run_steps_nonempty n steps : forall v h r h',
  nonempty_heap h -> run_steps n steps v h = Some (r, h') ->
  nonempty_heap h'.
Proof.
  unfold run_steps.
  induction steps as [|s steps IH]; intros v h r h' Hh; cbn [reduce].
  - now intros [= _ <-].
  - unfold bind.
    destruct (partial_call n s v h) as [[[w|e] h1]|] eqn:Hs; [| |discriminate].
    + apply IH. eapply call_binary_nonempty; eassumption.
    + intros [= _ <-]. eapply call_binary_nonempty; eassumption.
Qed.

Lemma call_nonempty_steps n l v h s rest :
  h !! l = Some (s :: rest) ->
  MathExpression_call n l [v] h = run_steps n (s :: rest) v h.
Proof.
  intros Hl. unfold MathExpression_call, operations, bind. now rewrite Hl.
Qed.

Lemma MathExpression_call_nonempty n l args h r h' :
  nonempty_heap h -> MathExpression_call n l args h = Some (r, h') ->
  nonempty_heap h'.
Proof.
  intros Hh. destruct args as [|v [|]]; try (now intros [= _ <-]).
  destruct (h !! l) as [[|s rest]|] eqn:Hl.
  - unfold MathExpression_call, operations, bind. rewrite Hl.
    now intros [= _ <-].
  - rewrite (call_nonempty_steps _ _ _ _ _ _ Hl).
    now apply run_steps_nonempty.
  - unfold MathExpression_call, operations, bind. now rewrite Hl.
Qed.
End NonEmpty.

Section HeapSize.
Context {cls : Type} `{!UserClasses cls} `{!Host cls}.
Implicit Types (a b x other : value cls) (h : heap cls) (op : arith).
Implicit Types f g : arith -> value cls -> value cls -> M cls (value cls).

Lemma size_determined_ret {A} (v : A) : size_determined (cls := cls) (ret v).
Proof. intros h1 h2 Hlen. now cbn. Qed.

Lemma size_determined_raise {A} e : size_determined (cls := cls) (A := A) (raise e).
Proof. intros h1 h2 Hlen. now cbn. Qed.

Lemma size_determined_host {A} (o : option (result A)) :
  size_determined (cls := cls) (host o).
Proof. intros h1 h2 Hlen. unfold host. now destruct o. Qed.

Lemma size_determined_bind {A B} (m : M cls A) (k : A -> M cls B) :
  size_determined m -> (forall v, size_determined (k v)) ->
  size_determined (bind m k).
Proof.
  intros Hm Hk h1 h2 Hlen. unfold bind. specialize (Hm h1 h2 Hlen).
  destruct (m h1) as [[[v1|e1] h1']|], (m h2) as [[[v2|e2] h2']|];
    try contradiction; try (destruct Hm; discriminate); try exact I.
  - destruct Hm as [[= ->] Hlen']. now apply Hk.
  - destruct Hm as [[= ->] Hlen']. now split.
Qed.

Lemma size_determined_init : size_determined (cls := cls) MathExpression_init.
Proof.
  intros h1 h2 Hlen. unfold MathExpression_init.
  rewrite !length_app, Hlen. now split.
Qed.

Lemma size_determined_add_operation l c other :
  size_determined (add_operation l c other).
Proof.
  intros h1 h2 Hlen. unfold add_operation.
  destruct (h1 !! l) as [o1|] eqn:H1, (h2 !! l) as [o2|] eqn:H2.
  - rewrite !length_insert. now split.
  - apply lookup_lt_Some in H1. apply lookup_ge_None in H2. lia.
  - apply lookup_lt_Some in H2. apply lookup_ge_None in H1. lia.
  - exact I.
Qed.

Lemma size_determined_str_op op s other : size_determined (str_op op s other).
Proof.
  destruct op, other; cbn [str_op];
    first [apply size_determined_ret | apply size_determined_host].
Qed.

Lemma size_determined_str_rop op s other :
  size_determined (str_rop (cls := cls) op s other).
Proof. destruct op, other; cbn [str_rop]; apply size_determined_ret. Qed.

Lemma size_determined_dispatch f op a b :
  (forall op' x y, size_determined (f op' x y)) ->
  size_determined (dispatch_arith f op a b).
Proof.
  intros Hf. unfold dispatch_arith.
  apply size_determined_bind.
  - destruct a as [z|fl|s| |c|[|P O]|l]; cbn [forward_arith];
      try apply size_determined_ret.
    + destruct (is_number b);
        [apply size_determined_host|apply size_determined_ret].
    + destruct (is_number b);
        [apply size_determined_host|apply size_determined_ret].
    + apply size_determined_str_op.
    + apply size_determined_bind; [apply size_determined_init|].
      intros v. apply Hf.
    + apply size_determined_add_operation.
  - intros r. destruct r; try apply size_determined_ret.
    destruct (decide (type_of a = type_of b)); [apply size_determined_raise|].
    apply size_determined_bind.
    + destruct b as [z|fl|s| |c|[|P O]|l]; cbn [reflected_arith];
        try apply size_determined_ret.
      * apply size_determined_str_rop.
      * apply size_determined_bind; [apply size_determined_init|].
        intros v. apply Hf.
      * apply size_determined_add_operation.
    + intros r'.
      destruct r'; first [apply size_determined_ret|apply size_determined_raise].
Qed.

Lemma size_determined_binary_arith n : forall op a b,
  size_determined (binary_arith n op a b).
Proof.
  induction n as [|n IH]; intros op a b.
  - intros h1 h2 _. exact I.
  - cbn [binary_arith]. now apply size_determined_dispatch.
Qed.

Lemma size_determined_call_binary n c : forall x y,
  size_determined (call_binary n c x y).
Proof.
  induction c as [op|c IH]; intros x y; cbn [call_binary].
  - apply size_determined_binary_arith.
  - apply IH.
Qed.

Lemma size_determined_run_steps n steps : forall v,
  size_determined (run_steps n steps v).
Proof.
  unfold run_steps. induction steps as [|s steps IH]; intros v; cbn [reduce].
  - apply size_determined_ret.
  - apply size_determined_bind; [apply size_determined_call_binary|].
    intros w. apply IH.
Qed.

(** Calling an arithmetic expression depends on the heap only through
    its size and the expression's own recorded list. *)
Lemma MathExpression_call_outcome n l args h1 h2 :
  length h1 = length h2 -> h1 !! l = h2 !! l ->
  fst <$> MathExpression_call n l args h1
  = fst <$> MathExpression_call n l args h2.
Proof.
  intros Hlen Hl. destruct args as [|v [|]]; try reflexivity.
  destruct (h1 !! l) as [[|s rest]|] eqn:H1; symmetry in Hl.
  - unfold MathExpression_call, operations, bind. now rewrite H1, Hl.
  - rewrite (call_nonempty_steps _ _ _ _ _ _ H1).
    rewrite (call_nonempty_steps _ _ _ _ _ _ Hl).
    pose proof (size_determined_run_steps n (s :: rest) v h1 h2 Hlen) as Hs.
    destruct (run_steps n (s :: rest) v h1) as [[r1 h1']|],
             (run_steps n (s :: rest) v h2) as [[r2 h2']|];
      try contradiction; [|reflexivity].
    destruct Hs as [-> _]. reflexivity.
  - unfold MathExpression_call, operations, bind. now rewrite H1, Hl.
Qed.
End HeapSize.

Section CallFuel.
Context {cls : Type} `{!UserClasses cls} `{!Host cls}.
Implicit Types (a b x other : value cls) (h : heap cls) (op : arith).

Lemma bind_ext {A B} (m m' : M cls A) (k k' : A -> M cls B) h :
  m h = m' h -> (forall v h', k v h' = k' v h') -> bind m k h = bind m' k' h.
Proof.
  intros Hm Hk. unfold bind. rewrite Hm.
  destruct (m' h) as [[[v|e] h']|]; auto.
Qed.

Lemma call_binary_fuel n c : forall x y h,
  call_binary (S (S n)) c x y h = call_binary 2 c x y h.
Proof.
  induction c as [op|c IH]; intros x y h; cbn [call_binary].
  - apply binary_arith_fuel.
  - apply IH.
Qed.

Lemma run_steps_fuel n steps : forall v h,
  run_steps (S (S n)) steps v h = run_steps 2 steps v h.
Proof.
  unfold run_steps. induction steps as [|s steps IH]; intros v h; cbn [reduce].
  - reflexivity.
  - apply bind_ext; [apply call_binary_fuel|]. intros w h'. apply IH.
Qed.

Lemma MathExpression_call_fuel n l args h :
  MathExpression_call (S (S n)) l args h = MathExpression_call 2 l args h.
Proof.
  destruct args as [|v [|]]; try reflexivity.
  unfold MathExpression_call. apply bind_ext; [reflexivity|].
  intros [|s rest] h'; [reflexivity|].
  apply (run_steps_fuel n (s :: rest)).
Qed.

Lemma call_fuel n (f : value cls) args h :
  call (S (S n)) f args h = call 2 f args h.
Proof. destruct f; try reflexivity. apply MathExpression_call_fuel. Qed.

End CallFuel.

Lemma complex_expression_fuel n (h : heap test_cls) :
  (f <- complex_expression (S (S n)) ;; call (S (S n)) f [VInt 5]) h
  = (f <- complex_expression 2 ;; call 2 f [VInt 5]) h.
Proof.
  apply bind_ext; [|intros; apply call_fuel].
  unfold complex_expression.
  do 3 (apply bind_ext; [apply binary_arith_fuel | intros ? ?]).
  apply binary_arith_fuel.
Qed.

Section ArithmeticProperties.
Context {cls : Type} `{!UserClasses cls} `{!Host cls}.
Implicit Types (a b x v other : value cls) (h : heap cls) (op : arith).

Lemma bind_assoc {A B C} (m : M cls A) (k : A -> M cls B) (k' : B -> M cls C) h :
  bind (bind m k) k' h = bind m (fun u => bind (k u) k') h.
Proof. unfold bind. now destruct (m h) as [[[v|e] h']|]. Qed.

Lemma run_steps_snoc fuel steps (s : partial cls) : forall x h,
  run_steps fuel (steps ++ [s]) x h
  = (r <- run_steps fuel steps x ;; partial_call fuel s r) h.
Proof.
  unfold run_steps.
  induction steps as [|s0 steps IH]; intros x h; cbn [app reduce].
  - unfold bind, ret. now destruct (partial_call fuel s x h) as [[[v|e] h']|].
  - rewrite bind_assoc. apply bind_ext; [reflexivity|]. intros w h'. apply IH.
Qed.

(** C4: calling an arithmetic expression with recorded steps
    [s1; ...; sn] runs the first step on the raw input and folds the
    others over the running result in recording order, the last
    recorded step being applied last; a step applies its fixed operand
    on the side captured when it was built.  [(10 ** 5) / (_ % 3) * 9]
    applied to 5 returns 450000.0. *)
Theorem arithmetic_call_is_fold (fuel : nat) (l : loc) (v : value cls)
    (h : heap cls) (s1 : partial cls) (rest : list (partial cls)) :
  h !! l = Some (s1 :: rest) ->
  MathExpression_call fuel l [v] h
  = (first <- partial_call fuel s1 v ;; run_steps fuel rest first) h
  /\ MathExpression_call fuel l [v] h = run_steps fuel (s1 :: rest) v h
  /\ (forall steps s x h',
         run_steps fuel (steps ++ [s]) x h'
         = (r <- run_steps fuel steps x ;; partial_call fuel s r) h')
  /\ (forall op c x,
         partial_call fuel (Partial (Operator op) c) x
         = binary_arith fuel op c x)
  /\ (forall op c x,
         partial_call fuel (Partial (Flip (Operator op)) c) x
         = binary_arith fuel op x c)
  /\ (forall n,
         (f <- complex_expression (S (S n)) ;; call (S (S n)) f [VInt 5]) []
         = Some (Ok (VFloat 450000%float),
                 [[Partial (Flip (Operator Mod)) (VInt 3);
                   Partial (Operator TrueDiv) (VInt 100000);
                   Partial (Flip (Operator Mul)) (VInt 9)]])).
Proof.
  intros Hl. repeat apply conj.
  - now apply call_nonempty_steps.
  - now apply call_nonempty_steps.
  - intros. apply run_steps_snoc.
  - reflexivity.
  - reflexivity.
  - intros n. rewrite complex_expression_fuel. reflexivity.
Qed.

(** C7: calling an arithmetic expression with no recorded step raises
    the empty-expression error; starting from the empty heap, every
    operator application and every call keeps all recorded lists
    non-empty, so a call on an expression built through the placeholder
    never meets the empty case and runs its steps. *)
Theorem empty_expression_error (fuel : nat) (l : loc) (v : value cls)
    (h : heap cls) :
  (h !! l = Some [] ->
   MathExpression_call fuel l [v] h = Some (Raise EmptyExpressionError, h))
  /\ nonempty_heap (cls := cls) []
  /\ (forall op a b r h',
         nonempty_heap h -> binary_arith fuel op a b h = Some (r, h') ->
         nonempty_heap h')
  /\ (forall args r h',
         nonempty_heap h -> MathExpression_call fuel l args h = Some (r, h') ->
         nonempty_heap h')
  /\ (forall ops,
         nonempty_heap h -> h !! l = Some ops ->
         ops <> [] /\ MathExpression_call fuel l [v] h = run_steps fuel ops v h).
Proof.
  repeat apply conj.
  - intros Hl. unfold MathExpression_call, operations, bind. now rewrite Hl.
  - constructor.
  - intros. eapply binary_arith_nonempty; eassumption.
  - intros. eapply MathExpression_call_nonempty; eassumption.
  - intros ops Hh Hl.
    assert (ops <> []) as Hne.
    { eapply (proj1 (Forall_lookup _ _) Hh); eassumption. }
    split; [assumption|].
    destruct ops as [|s rest]; [contradiction|].
    now apply call_nonempty_steps.
Qed.

(** C8: an arithmetic operator applied to an existing arithmetic
    expression returns that same instance; its recorded sequence is
    the old one with exactly one step appended at the end; no other
    expression of the heap changes. *)
Theorem arithmetic_combinators_mutate_in_place (n : nat) (op : arith)
    (l : loc) (other : value cls) (h : heap cls)
    (ops : list (partial cls)) :
  h !! l = Some ops ->
  let appended c := <[l := ops ++ [Partial c other]]> h in
  MathExpression_op op l other h
  = Some (Ok (VMath l), appended (Flip (Operator op)))
  /\ MathExpression_rop op l other h
     = Some (Ok (VMath l), appended (Operator op))
  /\ binary_arith (S n) op (VMath l) other h
     = Some (Ok (VMath l), appended (Flip (Operator op)))
  /\ (declines_arith op other = true ->
      binary_arith (S n) op other (VMath l) h
      = Some (Ok (VMath l), appended (Operator op)))
  /\ (forall c,
         appended c !! l = Some (ops ++ [Partial c other])
         /\ length (appended c) = length h
         /\ forall l', l' <> l -> appended c !! l' = h !! l').
Proof.
  intros Hl appended. repeat apply conj.
  - now apply add_operation_eval.
  - now apply add_operation_eval.
  - rewrite binary_arith_math_left. now apply add_operation_eval.
  - intros Ho. rewrite binary_arith_math_right by assumption.
    now apply add_operation_eval.
  - intros c. unfold appended. repeat apply conj.
    + apply list_lookup_insert_eq. eapply lookup_lt_Some; eassumption.
    + apply length_insert.
    + intros l' Hne. apply list_lookup_insert_ne. congruence.
Qed.

(** C9: every expression object, the placeholder, a chain or an
    arithmetic expression, rejects a call with no argument or with more
    than one with the arity error; a call with one argument goes on to
    the evaluation. *)
Theorem arity_enforced (fuel : nat) (e : expr cls) (l : loc)
    (args : list (value cls)) (h : heap cls) :
  (length args <> 1%nat ->
   Expression_call e args = Raise ArityError
   /\ MathExpression_call fuel l args h = Some (Raise ArityError, h)
   /\ call fuel (VExpr e) args h = Some (Raise ArityError, h)
   /\ call fuel (VMath l) args h = Some (Raise ArityError, h))
  /\ (forall x, Expression_call Placeholder [x] = Ok x)
  /\ (forall P O x,
         Expression_call (Chain P O) [x]
         = result_bind (Expression_call P [x]) (Operation_call O))
  /\ (forall x s rest,
         h !! l = Some (s :: rest) ->
         MathExpression_call fuel l [x] h = run_steps fuel (s :: rest) x h).
Proof.
  repeat apply conj.
  - intros Hn.
    assert (Expression_call e args = Raise ArityError) as He
        by (destruct args as [|? [|]], e; try reflexivity; now destruct Hn).
    assert (MathExpression_call fuel l args h = Some (Raise ArityError, h))
      as Hm by (destruct args as [|? [|]]; try reflexivity; now destruct Hn).
    repeat apply conj; try assumption.
    cbn [call]. unfold host. now rewrite He.
  - reflexivity.
  - reflexivity.
  - intros. now apply call_nonempty_steps.
Qed.

(** C10: an arithmetic operator applied to the placeholder, on either
    side, builds a brand-new arithmetic expression holding exactly one
    step and leaves every existing one as it was; two expressions
    started from the placeholder are different instances, and
    appending a step to one changes neither the recorded list of
    another nor the outcome of calling it. *)
Theorem placeholder_starts_fresh_expression (n : nat) (op : arith)
    (other : value cls) (h : heap cls) :
  binary_arith (S (S n)) op (VExpr Placeholder) other h
  = Some (Ok (VMath (length h)),
          h ++ [[Partial (Flip (Operator op)) other]])
  /\ (declines_arith op other = true ->
      binary_arith (S (S n)) op other (VExpr Placeholder) h
      = Some (Ok (VMath (length h)), h ++ [[Partial (Operator op) other]]))
  /\ h !! length h = None
  /\ (forall (step : partial cls) l',
         (l' < length h)%nat -> (h ++ [[step]]) !! l' = h !! l')
  /\ (forall op' other' l1 h1 l2 h2,
         binary_arith (S (S n)) op (VExpr Placeholder) other h
         = Some (Ok (VMath l1), h1) ->
         binary_arith (S (S n)) op' (VExpr Placeholder) other' h1
         = Some (Ok (VMath l2), h2) ->
         l1 <> l2 /\ h2 !! l1 = h1 !! l1)
  /\ (forall l1 l2 c x r h1,
         l1 <> l2 ->
         add_operation l1 c x h = Some (r, h1) ->
         h1 !! l2 = h !! l2
         /\ forall fuel args,
             fst <$> MathExpression_call fuel l2 args h1
             = fst <$> MathExpression_call fuel l2 args h).
Proof.
  repeat apply conj.
  - apply binary_arith_placeholder_left.
  - apply binary_arith_placeholder_right.
  - now apply lookup_ge_None.
  - intros step l' Hlt. now apply lookup_app_l.
  - intros op' other' l1 h1 l2 h2.
    rewrite !binary_arith_placeholder_left.
    intros [= <- <-] [= <- <-]. rewrite length_app. cbn [length]. split.
    + lia.
    + apply lookup_app_l. rewrite length_app. cbn [length]. lia.
  - intros l1 l2 c x r h1 Hne. unfold add_operation.
    destruct (h !! l1) as [ops|]; [|discriminate]. intros [= _ <-].
    assert (<[l1:=ops ++ [Partial c x]]> h !! l2 = h !! l2) as Hsame
        by now apply list_lookup_insert_ne.
    split; [assumption|]. intros fuel args.
    apply MathExpression_call_outcome; [apply length_insert|assumption].
Qed.
End ArithmeticProperties.

(** * The properties at work on the test-suite's classes *)

Lemma chain_repr_precedence_witness :
  Expression_repr (cls := test_cls) (Chain Placeholder (AndSomething (VInt 6)))
  = "_ & 6"%string
  /\ Expression_repr (cls := test_cls)
       (Chain (Chain Placeholder (SomethingOr (VInt 9))) (AndSomething (VInt 6)))
     = "(9 | _) & 6"%string.
Proof.
  split.
  - destruct (chain_repr_precedence (cls := test_cls)
                Placeholder (AndSomething (VInt 6))) as (Hdirect & _).
    rewrite Hdirect; [reflexivity | cbn; lia].
  - destruct (chain_repr_precedence (cls := test_cls)
                (Chain Placeholder (SomethingOr (VInt 9)))
                (AndSomething (VInt 6))) as (_ & Hparen & _).
    rewrite Hparen; [reflexivity | cbn; lia].
Defined.

Lemma dual_dispatch_on_accepted_input_witness :
  Expression_call (Chain Placeholder (SomethingAnd (VObj ImplementsAnd)))
    [VStr "foo"] = Ok (VInt 3)
  /\ Expression_call (Chain Placeholder (AndSomething (VObj ImplementsRAnd)))
       [VInt 99] = Ok (VStr "99")
  /\ Expression_call (Chain Placeholder (AndSomething (VObj Derived)))
       [VObj Base] = Ok (VInt 2)
  /\ Expression_call (Chain Placeholder (SomethingAnd (VObj Derived)))
       [VObj Base] = Ok (VInt 1).
Proof.
  repeat apply conj.
  - destruct (dual_dispatch_on_accepted_input BitAnd
                (VObj ImplementsAnd) (VObj ImplementsRAnd) (VStr "foo")
                len_or_NotImplemented str_or_NotImplemented) as (HL & _).
    destruct (HL eq_refl eq_refl) as (_ & Hcall).
    apply Hcall; [discriminate | left; reflexivity].
  - destruct (dual_dispatch_on_accepted_input BitAnd
                (VObj ImplementsAnd) (VObj ImplementsRAnd) (VInt 99)
                len_or_NotImplemented str_or_NotImplemented) as (_ & HR & _).
    destruct (HR eq_refl) as (_ & Hcall).
    apply Hcall; [discriminate | left; split; [reflexivity | discriminate]].
  - destruct (dual_dispatch_on_accepted_input BitAnd
                (VObj Derived) (VObj Derived) (VObj Base)
                one_for_instances (fun _ => Ok (VInt 2))) as (_ & HR & _).
    destruct (HR eq_refl) as (_ & Hcall).
    apply Hcall; [discriminate | right; left; reflexivity].
  - destruct (dual_dispatch_on_accepted_input BitAnd
                (VObj Derived) (VObj Derived) (VObj Base)
                one_for_instances (fun _ => Ok (VInt 2))) as (HL & _).
    destruct (HL eq_refl eq_refl) as (_ & Hcall).
    apply Hcall; [discriminate | left; reflexivity].
Defined.


(** The heap after [_ + 2]. *)
Lemma arithmetic_call_is_fold_witness :
  MathExpression_call 2 0 [VInt 5]
    ([[Partial (Flip (Operator Add)) (VInt 2)]] : heap test_cls)
  = Some (Ok (VInt 7), [[Partial (Flip (Operator Add)) (VInt 2)]]).
Proof.
  destruct (arithmetic_call_is_fold 2 0 (VInt 5)
              ([[Partial (Flip (Operator Add)) (VInt 2)]] : heap test_cls)
              (Partial (Flip (Operator Add)) (VInt 2)) [] eq_refl)
    as (_ & Hfold & _).
  rewrite Hfold. reflexivity.
Defined.

Lemma empty_expression_error_witness :
  MathExpression_call 2 0 [VInt 5] ([[]] : heap test_cls)
  = Some (Raise EmptyExpressionError, [[]])
  /\ nonempty_heap
       ([[Partial (Flip (Operator Add)) (VInt 2);
          Partial (Flip (Operator Mul)) (VInt 3)]] : heap test_cls)
  /\ MathExpression_call 2 0 [VInt 5]
       ([[Partial (Flip (Operator Add)) (VInt 2)]] : heap test_cls)
     = run_steps 2 [Partial (Flip (Operator Add)) (VInt 2)] (VInt 5)
         [[Partial (Flip (Operator Add)) (VInt 2)]].
Proof.
  assert (nonempty_heap
            ([[Partial (Flip (Operator Add)) (VInt 2)]] : heap test_cls))
    as Hh by (repeat constructor; discriminate).
  destruct (empty_expression_error 2 0 (VInt 5) ([[]] : heap test_cls))
    as (Hempty & _).
  destruct (empty_expression_error 2 0 (VInt 5)
              ([[Partial (Flip (Operator Add)) (VInt 2)]] : heap test_cls))
    as (_ & _ & Hop & _ & Hcall).
  repeat apply conj.
  - apply Hempty. reflexivity.
  - apply (Hop Mul (VMath 0) (VInt 3) (Ok (VMath 0))); [exact Hh | reflexivity].
  - apply (Hcall _ Hh eq_refl).
Defined.

Lemma arithmetic_combinators_mutate_in_place_witness :
  binary_arith 1 Mul (VMath 0) (VInt 3)
    ([[Partial (Flip (Operator Add)) (VInt 2)]] : heap test_cls)
  = Some (Ok (VMath 0),
          [[Partial (Flip (Operator Add)) (VInt 2);
            Partial (Flip (Operator Mul)) (VInt 3)]])
  /\ binary_arith 1 Mul (VInt 3) (VMath 0)
       ([[Partial (Flip (Operator Add)) (VInt 2)]] : heap test_cls)
     = Some (Ok (VMath 0),
             [[Partial (Flip (Operator Add)) (VInt 2);
               Partial (Operator Mul) (VInt 3)]]).
Proof.
  destruct (arithmetic_combinators_mutate_in_place 0 Mul 0 (VInt 3)
              ([[Partial (Flip (Operator Add)) (VInt 2)]] : heap test_cls)
              [Partial (Flip (Operator Add)) (VInt 2)] eq_refl)
    as (_ & _ & Hleft & Hright & _).
  split; [exact Hleft | exact (Hright eq_refl)].
Defined.

Lemma arity_enforced_witness :
  Expression_call (cls := test_cls) Placeholder [] = Raise ArityError
  /\ MathExpression_call 2 0 [VInt 1; VInt 2]
       ([[Partial (Flip (Operator Add)) (VInt 2)]] : heap test_cls)
     = Some (Raise ArityError, [[Partial (Flip (Operator Add)) (VInt 2)]]).
Proof.
  split.
  - destruct (arity_enforced 2 (Placeholder (cls := test_cls)) 0 []
                ([] : heap test_cls)) as (Hrej & _).
    apply Hrej. cbn. lia.
  - destruct (arity_enforced 2 (Placeholder (cls := test_cls)) 0
                [VInt 1; VInt 2]
                ([[Partial (Flip (Operator Add)) (VInt 2)]] : heap test_cls))
      as (Hrej & _).
    apply Hrej. cbn. lia.
Defined.

Lemma placeholder_starts_fresh_expression_witness :
  binary_arith 2 Sub (VInt 3) (VExpr Placeholder) (empty_heap)
  = Some (Ok (VMath 0), [[Partial (Operator Sub) (VInt 3)]])
  /\ fst <$> MathExpression_call 2 1 [VInt 5]
       ([[Partial (Flip (Operator Add)) (VInt 2);
          Partial (Flip (Operator Mul)) (VInt 3)];
         [Partial (Operator Sub) (VInt 3)]] : heap test_cls)
     = fst <$> MathExpression_call 2 1 [VInt 5]
         ([[Partial (Flip (Operator Add)) (VInt 2)];
           [Partial (Operator Sub) (VInt 3)]] : heap test_cls).
Proof.
  split.
  - destruct (placeholder_starts_fresh_expression 0 Sub (VInt 3) empty_heap)
      as (_ & Hright & _).
    apply Hright. reflexivity.
  - destruct (placeholder_starts_fresh_expression 0 Sub (VInt 3)
                ([[Partial (Flip (Operator Add)) (VInt 2)];
                  [Partial (Operator Sub) (VInt 3)]] : heap test_cls))
      as (_ & _ & _ & _ & _ & Happend).
    destruct (Happend 0%nat 1%nat (Flip (Operator Mul)) (VInt 3)
                (Ok (VMath 0)) _ ltac:(lia) eq_refl) as (_ & Hcall).
    apply Hcall.
Defined.

(** * Further properties *)

Section ChainShapes.
Context {cls : Type} `{!UserClasses cls} `{!Host cls}.
Implicit Types (P e : expr cls) (O : operation cls) (x y w : value cls).

(** Parentheses are written around the previous expression exactly
    when it ends in an [|] and the new operation is an [&]; the
    placeholder is the only expression of precedence 0. *)
Theorem parentheses_only_for_or_under_and P O :
  Expression_repr (Chain P O)
  = as_string O (if ends_in_or P && is_and O
                 then ("(" ++ Expression_repr P ++ ")")%string
                 else Expression_repr P)
  /\ (Expression_precedence P =? 0)
     = match P with
       | Placeholder => true
       | Chain _ _ => false
       end.
Proof.
  split.
  - destruct P as [|P' [v|v|v|v]], O as [u|u|u|u]; reflexivity.
  - destruct P as [|P' [v|v|v|v]]; reflexivity.
Qed.

Lemma Expression_call_replay e x :
  Expression_call e [x] = replay (recorded_operations e) x.
Proof.
  induction e as [|P IH O]; [reflexivity|].
  rewrite call_chain, IH. cbn [recorded_operations]. now rewrite replay_snoc.
Qed.

Lemma replay_failure (ops more : list (operation cls)) x err :
  replay ops x = Raise err -> replay (ops ++ more) x = Raise err.
Proof.
  revert ops. induction more as [|O more IH] using rev_ind; intros ops Hr.
  - now rewrite app_nil_r.
  - rewrite app_assoc, replay_snoc, (IH ops Hr). reflexivity.
Qed.

(** Once an operation of a chain fails, no later operation runs: every
    chain that starts with the operations of a failing chain fails on
    the same input with the same error. *)
Theorem failure_skips_later_operations e e' (more : list (operation cls)) x err :
  Expression_call e [x] = Raise err ->
  recorded_operations e' = recorded_operations e ++ more ->
  Expression_call e' [x] = Raise err.
Proof.
  intros He Hops. rewrite Expression_call_replay in *.
  rewrite Hops. now apply replay_failure.
Qed.

Lemma int_operation_call O (n : Z) :
  int_operand O = true -> exists m, Operation_call O (VInt n) = Ok (VInt m).
Proof.
  destruct O as [[]|[]|[]|[]]; try discriminate; intros _; eexists; reflexivity.
Qed.

(** A chain whose fixed operands are all integers never fails on an
    integer input, and returns an integer. *)
Theorem integer_chain_never_fails e (n : Z) :
  int_chain e = true -> exists m, Expression_call e [VInt n] = Ok (VInt m).
Proof.
  induction e as [|P IH O]; cbn [int_chain]; intros Hc.
  - now exists n.
  - apply andb_true_iff in Hc as [HP HO].
    destruct (IH HP) as [m Hm]. rewrite call_chain, Hm. cbn [result_bind].
    now apply int_operation_call.
Qed.

(** After an integer result, an integer operand gives the same value
    whether the placeholder stood left or right of it. *)
Theorem integer_operand_side_irrelevant (op : bitop) P x (n k : Z) :
  Expression_call P [x] = Ok (VInt n) ->
  Expression_call (Chain P (operand_left op (VInt k))) [x]
  = Ok (VInt (int_bitop op n k))
  /\ Expression_call (Chain P (operand_right op (VInt k))) [x]
     = Ok (VInt (int_bitop op n k)).
Proof.
  intros HP. rewrite call_operand_left, call_operand_right, HP.
  cbn [result_bind]. split; [|reflexivity].
  destruct op; cbn; f_equal; f_equal; [apply Z.land_comm | apply Z.lor_comm].
Qed.

Lemma append_assoc (a b c : string) : ((a ++ b) ++ c = a ++ (b ++ c))%string.
Proof. induction a as [|ch a IH]; cbn; [reflexivity | now rewrite IH]. Qed.

Lemma chain_acyclic P O : P <> Chain P O.
Proof.
  revert O. induction P as [|P' IH O']; intros O; [discriminate|].
  intros Heq. injection Heq as HP _. now apply IH in HP.
Qed.

(** The string form does not keep the grouping of an operand that is
    itself an expression: [P & (_ & w)] and [(P & _) & w] are different
    chains with one string form, and on an input for which [P] returns
    an integer they return different expressions. *)
Theorem repr_loses_operand_grouping P w x (n : Z) :
  let nested := AndSomething (VExpr (Chain Placeholder (AndSomething w))) in
  let flat :=
    Chain (Chain P (AndSomething (VExpr Placeholder))) (AndSomething w) in
  Expression_repr (Chain P nested) = Expression_repr flat
  /\ Chain P nested <> flat
  /\ (Expression_call P [x] = Ok (VInt n) ->
      Expression_call (Chain P nested) [x]
      = Ok (VExpr (Chain (Chain Placeholder (AndSomething w))
                         (SomethingAnd (VInt n))))
      /\ Expression_call flat [x]
         = Ok (VExpr (Chain (Chain Placeholder (SomethingAnd (VInt n)))
                            (AndSomething w)))
      /\ Expression_call (Chain P nested) [x] <> Expression_call flat [x]).
Proof.
  intros nested flat. repeat apply conj.
  - unfold nested, flat. cbn [Expression_repr as_string repr].
    cbn [precedence Expression_precedence].
    change (0 <=? 8) with true. change (8 <=? 8) with true. cbn iota.
    generalize (if Expression_precedence P <=? 8
                then Expression_repr P
                else ("(" ++ Expression_repr P ++ ")")%string).
    intros inner. rewrite !append_assoc. reflexivity.
  - unfold nested, flat. intros Heq. injection Heq as HP _.
    now apply chain_acyclic in HP.
  - intros HP.
    assert (Expression_call (Chain P nested) [x]
            = Ok (VExpr (Chain (Chain Placeholder (AndSomething w))
                               (SomethingAnd (VInt n))))) as Hnested
        by (unfold nested; rewrite call_chain, HP; reflexivity).
    assert (Expression_call flat [x]
            = Ok (VExpr (Chain (Chain Placeholder (SomethingAnd (VInt n)))
                               (AndSomething w)))) as Hflat
        by (unfold flat; rewrite !call_chain, HP; reflexivity).
    repeat apply conj; try assumption.
    rewrite Hnested, Hflat. intros Heq. discriminate Heq.
Qed.
End ChainShapes.

Section ArithmeticShapes.
Context {cls : Type} `{!UserClasses cls} `{!Host cls}.
Implicit Types (a b x k other : value cls) (h : heap cls) (op : arith).
Implicit Types f : arith -> value cls -> value cls -> M cls (value cls).

Lemma bind_ret {A} (m : M cls A) h : bind m ret h = m h.
Proof. unfold bind, ret. now destruct (m h) as [[[u|e] h']|]. Qed.

Lemma call_one_step fuel l (s : partial cls) x h :
  h !! l = Some [s] ->
  call fuel (VMath l) [x] h = partial_call fuel s x h.
Proof.
  intros Hl. cbn [call]. rewrite (call_nonempty_steps _ _ _ _ _ _ Hl).
  unfold run_steps. cbn [reduce]. apply bind_ret.
Qed.

Lemma call_started_left n op k x h :
  (e <- binary_arith (S (S n)) op (VExpr Placeholder) k ;;
   call (S (S n)) e [x]) h
  = binary_arith (S (S n)) op x k
      (h ++ [[Partial (Flip (Operator op)) k]]).
Proof.
  unfold bind at 1. rewrite binary_arith_placeholder_left.
  now rewrite (call_one_step _ _ _ _ _ (fresh_lookup h _)).
Qed.

Lemma call_started_right n op k x h :
  declines_arith op k = true ->
  (e <- binary_arith (S (S n)) op k (VExpr Placeholder) ;;
   call (S (S n)) e [x]) h
  = binary_arith (S (S n)) op k x (h ++ [[Partial (Operator op) k]]).
Proof.
  intros Hk. unfold bind at 1.
  rewrite binary_arith_placeholder_right by assumption.
  now rewrite (call_one_step _ _ _ _ _ (fresh_lookup h _)).
Qed.

(** An expression started from the placeholder stands for the operator
    it was built with: calling [_ op k] on [x] evaluates [x op k], and
    calling [k op _] on [x] evaluates [k op x], by the interpreter's
    own protocol and whatever the values are. *)
Theorem started_expression_applies_operator (n : nat) op k x h :
  (e <- binary_arith (S (S n)) op (VExpr Placeholder) k ;;
   call (S (S n)) e [x]) h
  = binary_arith (S (S n)) op x k
      (h ++ [[Partial (Flip (Operator op)) k]])
  /\ (declines_arith op k = true ->
      (e <- binary_arith (S (S n)) op k (VExpr Placeholder) ;;
       call (S (S n)) e [x]) h
      = binary_arith (S (S n)) op k x (h ++ [[Partial (Operator op) k]])).
Proof. split; [apply call_started_left | apply call_started_right]. Qed.

(** *** Operations only append *)

Lemma heap_extends_refl h : heap_extends h h.
Proof. intros l ops Hl. exists []. now rewrite app_nil_r. Qed.

Lemma heap_extends_trans h1 h2 h3 :
  heap_extends h1 h2 -> heap_extends h2 h3 -> heap_extends h1 h3.
Proof.
  intros H12 H23 l ops Hl.
  destruct (H12 l ops Hl) as [m1 H2]. destruct (H23 _ _ H2) as [m2 H3].
  exists (m1 ++ m2). now rewrite app_assoc.
Qed.

Lemma only_appends_ret {A} (u : A) : only_appends (cls := cls) (ret u).
Proof. intros h r h' [= _ <-]. apply heap_extends_refl. Qed.

Lemma only_appends_raise {A} e : only_appends (cls := cls) (A := A) (raise e).
Proof. intros h r h' [= _ <-]. apply heap_extends_refl. Qed.

Lemma only_appends_host {A} (o : option (result A)) :
  only_appends (cls := cls) (host o).
Proof.
  intros h r h' Hr. rewrite (host_unchanged _ _ _ _ Hr).
  apply heap_extends_refl.
Qed.

Lemma only_appends_bind {A B} (m : M cls A) (c : A -> M cls B) :
  only_appends m -> (forall u, only_appends (c u)) -> only_appends (bind m c).
Proof.
  intros Hm Hc h r h'. unfold bind.
  destruct (m h) as [[[u|e] h1]|] eqn:Hmh; [| |discriminate].
  - intros Hk. eapply heap_extends_trans; [eapply Hm|eapply Hc]; eassumption.
  - intros [= _ <-]. eapply Hm; eassumption.
Qed.

Lemma only_appends_init : only_appends (cls := cls) MathExpression_init.
Proof.
  intros h r h' [= _ <-] l ops Hl. exists [].
  rewrite app_nil_r, lookup_app_l; [assumption|].
  eapply lookup_lt_Some; eassumption.
Qed.

Lemma only_appends_add_operation l c other :
  only_appends (add_operation l c other).
Proof.
  intros h r h'. unfold add_operation.
  destruct (h !! l) as [ops|] eqn:Hl; [|discriminate].
  intros [= _ <-] l' ops' Hl'. destruct (decide (l = l')) as [<-|Hne].
  - exists [Partial c other].
    assert (Some ops = Some ops') as [= <-]
        by (transitivity (h !! l); [symmetry; exact Hl | exact Hl']).
    apply list_lookup_insert_eq. eapply lookup_lt_Some; eassumption.
  - exists []. now rewrite app_nil_r, list_lookup_insert_ne.
Qed.

Lemma only_appends_dispatch f op a b :
  (forall op' u w, only_appends (f op' u w)) ->
  only_appends (dispatch_arith f op a b).
Proof.
  intros Hf. unfold dispatch_arith. apply only_appends_bind.
  - destruct a as [z|fl|s| |c|[|P O]|l]; cbn [forward_arith];
      try apply only_appends_ret.
    + destruct (is_number b);
        [apply only_appends_host|apply only_appends_ret].
    + destruct (is_number b);
        [apply only_appends_host|apply only_appends_ret].
    + destruct op, b; cbn [str_op];
        first [apply only_appends_ret | apply only_appends_host].
    + apply only_appends_bind; [apply only_appends_init|]. intros u. apply Hf.
    + apply only_appends_add_operation.
  - intros r. destruct r; try apply only_appends_ret.
    destruct (decide (type_of a = type_of b)); [apply only_appends_raise|].
    apply only_appends_bind.
    + destruct b as [z|fl|s| |c|[|P O]|l]; cbn [reflected_arith];
        try apply only_appends_ret.
      * destruct op, a; cbn [str_rop]; apply only_appends_ret.
      * apply only_appends_bind; [apply only_appends_init|].
        intros u. apply Hf.
      * apply only_appends_add_operation.
    + intros r'.
      destruct r'; first [apply only_appends_ret|apply only_appends_raise].
Qed.

Lemma only_appends_binary_arith n : forall op a b,
  only_appends (binary_arith n op a b).
Proof.
  induction n as [|n IH]; intros op a b.
  - intros h r h'. discriminate.
  - cbn [binary_arith]. now apply only_appends_dispatch.
Qed.

Lemma only_appends_call_binary n c : forall u w,
  only_appends (call_binary n c u w).
Proof.
  induction c as [op|c IH]; intros u w; cbn [call_binary].
  - apply only_appends_binary_arith.
  - apply IH.
Qed.

Lemma only_appends_run_steps n steps : forall u,
  only_appends (run_steps n steps u).
Proof.
  unfold run_steps. induction steps as [|s steps IH]; intros u; cbn [reduce].
  - apply only_appends_ret.
  - apply only_appends_bind; [apply only_appends_call_binary|].
    intros w. apply IH.
Qed.

Lemma only_appends_call n l args : only_appends (MathExpression_call n l args).
Proof.
  destruct args as [|u [|]]; try apply only_appends_raise.
  unfold MathExpression_call. apply only_appends_bind.
  - intros h r h'. unfold operations. destruct (h !! l); [|discriminate].
    intros [= _ <-]. apply heap_extends_refl.
  - intros [|s rest]; [apply only_appends_raise|].
    apply (only_appends_run_steps n (s :: rest)).
Qed.

(** Whatever an arithmetic operator or a call does to the heap, it
    only appends: every arithmetic expression stays where it is, and
    its recorded steps stay in place at the front of its list. *)
Theorem arithmetic_only_appends (fuel : nat) op a b (l : loc)
    (args : list (value cls)) h r h' :
  (binary_arith fuel op a b h = Some (r, h') -> heap_extends h h')
  /\ (MathExpression_call fuel l args h = Some (r, h') -> heap_extends h h').
Proof.
  split.
  - apply only_appends_binary_arith.
  - apply only_appends_call.
Qed.

(** Two expressions derived from one arithmetic expression are that
    same instance, which holds the steps of both. *)
Theorem derived_expressions_share_steps (n : nat) (op1 op2 : arith)
    (l : loc) a b h (ops : list (partial cls)) :
  h !! l = Some ops ->
  (e1 <- binary_arith (S n) op1 (VMath l) a ;;
   e2 <- binary_arith (S n) op2 (VMath l) b ;;
   ret (e1, e2)) h
  = Some (Ok (VMath l, VMath l),
          <[l := ops ++ [Partial (Flip (Operator op1)) a;
                         Partial (Flip (Operator op2)) b]]> h).
Proof.
  intros Hl. unfold bind at 1. rewrite binary_arith_math_left.
  rewrite (add_operation_eval _ _ _ _ _ Hl).
  unfold bind. rewrite binary_arith_math_left.
  erewrite add_operation_eval.
  - cbn [ret]. rewrite list_insert_insert_eq.
    replace ((ops ++ [Partial (Flip (Operator op1)) a])
               ++ [Partial (Flip (Operator op2)) b])
      with (ops ++ [Partial (Flip (Operator op1)) a;
                    Partial (Flip (Operator op2)) b])
      by (now rewrite <- app_assoc).
    reflexivity.
  - apply list_lookup_insert_eq. eapply lookup_lt_Some; eassumption.
Qed.

(** An operand that is itself an expression is not evaluated at call
    time.  Called on a value whose own operator declines, [_ op _]
    returns a new arithmetic expression, and [_ op e] returns the
    arithmetic expression [e] after recording one more step on it. *)
Theorem expression_operand_is_not_evaluated (n : nat) op x h :
  declines_arith op x = true ->
  (e <- binary_arith (S (S n)) op (VExpr Placeholder) (VExpr Placeholder) ;;
   call (S (S n)) e [x]) h
  = Some (Ok (VMath (S (length h))),
          (h ++ [[Partial (Flip (Operator op)) (VExpr Placeholder)]])
            ++ [[Partial (Operator op) x]])
  /\ forall l (ops : list (partial cls)),
      h !! l = Some ops ->
      (e <- binary_arith (S (S n)) op (VExpr Placeholder) (VMath l) ;;
       call (S (S n)) e [x]) h
      = Some (Ok (VMath l),
              <[l := ops ++ [Partial (Operator op) x]]>
                (h ++ [[Partial (Flip (Operator op)) (VMath l)]])).
Proof.
  intros Hx. split.
  - rewrite call_started_left.
    rewrite binary_arith_placeholder_right by assumption.
    rewrite length_app. cbn [length]. now rewrite Nat.add_1_r.
  - intros l ops Hl. rewrite call_started_left.
    rewrite binary_arith_math_right by assumption.
    apply add_operation_eval. rewrite lookup_app_l; [assumption|].
    eapply lookup_lt_Some; eassumption.
Qed.
End ArithmeticShapes.

(** ** On Python's numbers *)

Lemma python_num_arith_number op (a b v : value test_cls) :
  python_num_arith op a b = Some (Ok v) -> is_number v = true.
Proof.
  unfold python_num_arith, int_arith, float_arith.
  destruct a, b, op; cbn;
    repeat match goal with
           | |- context [if ?c then _ else _] => destruct c
           | |- context [match exact_float ?z with _ => _ end] =>
               destruct (exact_float z)
           end;
    try discriminate; now intros [= <-].
Qed.

Lemma binary_arith_numbers m op (a b : value test_cls) (h : heap test_cls) :
  is_number a = true -> is_number b = true ->
  binary_arith (S m) op a b h
  = match python_num_arith op a b with
    | Some r => Some (r, h)
    | None => None
    end.
Proof.
  intros Ha Hb. cbn [binary_arith]. unfold dispatch_arith, bind.
  assert (forward_arith (binary_arith m) op a b h
          = host (python_num_arith op a b) h) as ->.
  { destruct a; try discriminate Ha; cbn [forward_arith]; now rewrite Hb. }
  unfold host.
  destruct (python_num_arith op a b) as [[v|e]|] eqn:Hr; try reflexivity.
  apply python_num_arith_number in Hr. now destruct v.
Qed.

Section NumberCalls.
Context {cls : Type} `{!UserClasses cls} `{!Host cls}.
Implicit Types (a b x : value cls) (h : heap cls) (op : arith).

(** The host's arithmetic between two numbers answers a number when it
    answers a value. *)
Hypothesis numbers_closed : forall op a b v,
  is_number a = true -> is_number b = true ->
  num_arith op a b = Some (Ok v) -> is_number v = true.

Lemma binary_arith_on_numbers m op a b h r h' :
  is_number a = true -> is_number b = true ->
  binary_arith (S m) op a b h = Some (r, h') ->
  h' = h /\ forall v, r = Ok v -> is_number v = true.
Proof.
  intros Ha Hb. cbn [binary_arith]. unfold dispatch_arith, bind.
  assert (forward_arith (binary_arith m) op a b h
          = host (num_arith op a b) h) as ->.
  { destruct a; try discriminate Ha; cbn [forward_arith]; now rewrite Hb. }
  unfold host.
  destruct (num_arith op a b) as [[v|e]|] eqn:Hr; [| |discriminate].
  - pose proof (numbers_closed _ _ _ _ Ha Hb Hr) as Hv.
    destruct v; try discriminate Hv; intros [= <- <-];
      (split; [reflexivity|]); now intros ? [= <-].
  - intros [= <- <-]. split; [reflexivity|]. discriminate.
Qed.

Lemma call_binary_on_numbers m c : forall a b h r h',
  is_number a = true -> is_number b = true ->
  call_binary (S m) c a b h = Some (r, h') ->
  h' = h /\ forall v, r = Ok v -> is_number v = true.
Proof.
  induction c as [op|c IH]; intros a b h r h' Ha Hb; cbn [call_binary].
  - now apply binary_arith_on_numbers.
  - now apply IH.
Qed.

Lemma run_steps_on_numbers m steps : forall x h r h',
  number_steps steps = true -> is_number x = true ->
  run_steps (S m) steps x h = Some (r, h') ->
  h' = h /\ forall v, r = Ok v -> is_number v = true.
Proof.
  unfold run_steps, number_steps.
  induction steps as [|s steps IH]; intros x h r h' Hs Hx; cbn [reduce].
  - intros [= <- <-]. split; [reflexivity|]. now intros v [= <-].
  - cbn [forallb] in Hs. apply andb_true_iff in Hs as [Hb Hs].
    unfold bind, partial_call.
    destruct (call_binary (S m) (func s) (bound s) x h) as [[[w|e] h1]|] eqn:Hc;
      [| |discriminate].
    + destruct (call_binary_on_numbers _ _ _ _ _ _ _ Hb Hx Hc) as [-> Hw].
      apply IH; [assumption|]. now apply Hw.
    + destruct (call_binary_on_numbers _ _ _ _ _ _ _ Hb Hx Hc) as [-> _].
      intros [= <- <-]. split; [reflexivity|]. discriminate.
Qed.

Lemma call_binary_no_budget c : forall a b h,
  call_binary 0 c a b h = None.
Proof. induction c as [op|c IH]; intros a b h; [reflexivity | apply IH]. Qed.

Lemma MathExpression_call_on_numbers fuel (l : loc) x h
    (steps : list (partial cls)) r h' :
  h !! l = Some steps -> number_steps steps = true -> is_number x = true ->
  MathExpression_call fuel l [x] h = Some (r, h') ->
  h' = h /\ forall v, r = Ok v -> is_number v = true.
Proof.
  intros Hl Hs Hx. destruct steps as [|s rest].
  - unfold MathExpression_call, operations, bind. rewrite Hl.
    intros [= <- <-]. split; [reflexivity|]. discriminate.
  - rewrite (call_nonempty_steps _ _ _ _ _ _ Hl).
    destruct fuel as [|m].
    + unfold run_steps. cbn [reduce]. unfold bind, partial_call.
      now rewrite call_binary_no_budget.
    + now apply run_steps_on_numbers.
Qed.
End NumberCalls.

(** On every host whose arithmetic between two numbers answers a
    number or raises, a call with numbers as fixed operands and a
    number as input has no effect on the heap, and the value it
    returns, if any, is a number. *)
Theorem number_call_leaves_heap_unchanged {cls : Type} `{!UserClasses cls}
    `{!Host cls} (fuel : nat) (l : loc) (x : value cls) (h : heap cls)
    (steps : list (partial cls)) (r : result (value cls)) (h' : heap cls) :
  (forall op a b v,
      is_number a = true -> is_number b = true ->
      num_arith op a b = Some (Ok v) -> is_number v = true) ->
  h !! l = Some steps -> number_steps steps = true -> is_number x = true ->
  MathExpression_call fuel l [x] h = Some (r, h') ->
  h' = h /\ forall v, r = Ok v -> is_number v = true.
Proof. intros Hclosed. now apply (MathExpression_call_on_numbers Hclosed). Qed.

Lemma binary_arith_ints m op (x k : Z) (h : heap test_cls) :
  binary_arith (S m) op (VInt x) (VInt k) h
  = match int_arith op x k with
    | Some r => Some (r, h)
    | None => None
    end.
Proof. now rewrite binary_arith_numbers. Qed.

(** On integers an expression started from the placeholder keeps the
    side of its operand, [(_ - k)(x) = x - k] and [(k - _)(x) = k - x],
    and a zero divisor is met only by the call: [_ // 0] and [_ % 0]
    are built, and raise when called; [k // _] and [k % _] raise when
    called on 0. *)
Theorem integer_expression_values (n : nat) (k x : Z) (h : heap test_cls) :
  let left op :=
    fst <$> (e <- binary_arith (S (S n)) op (VExpr Placeholder) (VInt k) ;;
             call (S (S n)) e [VInt x]) h in
  let right op :=
    fst <$> (e <- binary_arith (S (S n)) op (VInt k) (VExpr Placeholder) ;;
             call (S (S n)) e [VInt x]) h in
  left Sub = Some (Ok (VInt (x - k)))
  /\ right Sub = Some (Ok (VInt (k - x)))
  /\ left FloorDiv
     = Some (if k =? 0 then Raise ZeroDivisionError else Ok (VInt (x / k)))
  /\ right FloorDiv
     = Some (if x =? 0 then Raise ZeroDivisionError else Ok (VInt (k / x)))
  /\ left Mod
     = Some (if k =? 0 then Raise ZeroDivisionError else Ok (VInt (x mod k)))
  /\ right Mod
     = Some (if x =? 0 then Raise ZeroDivisionError else Ok (VInt (k mod x)))
  /\ fst <$> binary_arith (S (S n)) FloorDiv (VExpr Placeholder) (VInt 0) h
     = Some (Ok (VMath (length h)))
  /\ fst <$> binary_arith (S (S n)) Mod (VExpr Placeholder) (VInt 0) h
     = Some (Ok (VMath (length h))).
Proof.
  intros left right. unfold left, right.
  rewrite !call_started_left, !call_started_right by reflexivity.
  rewrite !binary_arith_ints, !binary_arith_placeholder_left.
  cbn [int_arith fmap option_fmap option_map fst].
  repeat apply conj; reflexivity.
Qed.

(** ** The further properties at work *)

Lemma failure_skips_later_operations_witness :
  Expression_call
    (Chain (Chain (Chain Placeholder (SomethingAnd (VObj ImplementsAnd)))
                  (AndSomething (VInt 7)))
           (OrSomething (VInt 1)))
    [VInt 5]
  = Raise UnsupportedOperation.
Proof.
  apply (failure_skips_later_operations
           (Chain Placeholder (SomethingAnd (VObj ImplementsAnd))) _
           [AndSomething (VInt 7); OrSomething (VInt 1)]);
    reflexivity.
Defined.

Lemma integer_chain_never_fails_witness :
  exists m,
    Expression_call (cls := test_cls)
      (Chain (Chain (Chain Placeholder (SomethingOr (VInt 60)))
                    (OrSomething (VInt 6)))
             (OrSomething (VInt 4)))
      [VInt 4]
    = Ok (VInt m).
Proof. apply integer_chain_never_fails. reflexivity. Defined.

Lemma integer_operand_side_irrelevant_witness :
  Expression_call (cls := test_cls)
    (Chain (Chain Placeholder (AndSomething (VInt 12))) (SomethingOr (VInt 3)))
    [VInt 10]
  = Ok (VInt 11)
  /\ Expression_call (cls := test_cls)
       (Chain (Chain Placeholder (AndSomething (VInt 12))) (OrSomething (VInt 3)))
       [VInt 10]
     = Ok (VInt 11).
Proof.
  apply (integer_operand_side_irrelevant BitOr
           (Chain Placeholder (AndSomething (VInt 12))) (VInt 10) 8 3).
  reflexivity.
Defined.

Lemma started_expression_applies_operator_witness :
  (e <- binary_arith 2 Sub (VInt 3) (VExpr Placeholder) ;;
   call 2 e [VInt 10]) empty_heap
  = binary_arith 2 Sub (VInt 3) (VInt 10) [[Partial (Operator Sub) (VInt 3)]].
Proof.
  destruct (started_expression_applies_operator 0 Sub (VInt 3) (VInt 10)
              empty_heap) as (_ & Hright).
  apply Hright. reflexivity.
Defined.

Lemma arithmetic_only_appends_witness :
  heap_extends
    ([[Partial (Flip (Operator Add)) (VInt 2)]] : heap test_cls)
    [[Partial (Flip (Operator Add)) (VInt 2);
      Partial (Flip (Operator Mul)) (VInt 3)]]
  /\ heap_extends
       ([[Partial (Flip (Operator Add)) (VExpr Placeholder)]] : heap test_cls)
       [[Partial (Flip (Operator Add)) (VExpr Placeholder)];
        [Partial (Operator Add) (VInt 5)]].
Proof.
  split.
  - destruct (arithmetic_only_appends 1 Mul (VMath 0) (VInt 3) 0 [VInt 5]
                ([[Partial (Flip (Operator Add)) (VInt 2)]] : heap test_cls)
                (Ok (VMath 0))
                [[Partial (Flip (Operator Add)) (VInt 2);
                  Partial (Flip (Operator Mul)) (VInt 3)]]) as (Hop & _).
    apply Hop. reflexivity.
  - destruct (arithmetic_only_appends 2 Add (VInt 0) (VInt 0) 0 [VInt 5]
                ([[Partial (Flip (Operator Add)) (VExpr Placeholder)]]
                 : heap test_cls)
                (Ok (VMath 1))
                [[Partial (Flip (Operator Add)) (VExpr Placeholder)];
                 [Partial (Operator Add) (VInt 5)]]) as (_ & Hcall).
    apply Hcall. reflexivity.
Defined.

Lemma derived_expressions_share_steps_witness :
  (e1 <- binary_arith 1 Mul (VMath 0) (VInt 2) ;;
   e2 <- binary_arith 1 Mul (VMath 0) (VInt 3) ;;
   ret (e1, e2))
    ([[Partial (Flip (Operator Add)) (VInt 1)]] : heap test_cls)
  = Some (Ok (VMath 0, VMath 0),
          [[Partial (Flip (Operator Add)) (VInt 1);
            Partial (Flip (Operator Mul)) (VInt 2);
            Partial (Flip (Operator Mul)) (VInt 3)]]).
Proof.
  apply (derived_expressions_share_steps 0 Mul Mul 0 (VInt 2) (VInt 3)
           ([[Partial (Flip (Operator Add)) (VInt 1)]] : heap test_cls)
           [Partial (Flip (Operator Add)) (VInt 1)]).
  reflexivity.
Defined.

Lemma expression_operand_is_not_evaluated_witness :
  (e <- binary_arith 2 Add (VExpr Placeholder) (VExpr Placeholder) ;;
   call 2 e [VInt 3]) empty_heap
  = Some (Ok (VMath 1),
          [[Partial (Flip (Operator Add)) (VExpr Placeholder)];
           [Partial (Operator Add) (VInt 3)]]).
Proof.
  destruct (expression_operand_is_not_evaluated 0 Add (VInt 3) empty_heap
              eq_refl) as (Hplaceholder & _).
  exact Hplaceholder.
Defined.

Lemma number_call_leaves_heap_unchanged_witness :
  MathExpression_call 2 0 [VInt 5]
    ([[Partial (Flip (Operator Add)) (VInt 2);
       Partial (Flip (Operator Mul)) (VInt 3)]] : heap test_cls)
  = Some (Ok (VInt 21),
          [[Partial (Flip (Operator Add)) (VInt 2);
            Partial (Flip (Operator Mul)) (VInt 3)]])
  /\ is_number (VInt 21 : value test_cls) = true.
Proof.
  split; [reflexivity|].
  assert (forall op (a b v : value test_cls),
             is_number a = true -> is_number b = true ->
             num_arith op a b = Some (Ok v) -> is_number v = true) as Hclosed
      by (intros op a b v _ _; apply python_num_arith_number).
  destruct (number_call_leaves_heap_unchanged 2 0 (VInt 5)
              ([[Partial (Flip (Operator Add)) (VInt 2);
                 Partial (Flip (Operator Mul)) (VInt 3)]] : heap test_cls)
              [Partial (Flip (Operator Add)) (VInt 2);
               Partial (Flip (Operator Mul)) (VInt 3)]
              (Ok (VInt 21))
              [[Partial (Flip (Operator Add)) (VInt 2);
                Partial (Flip (Operator Mul)) (VInt 3)]]
              Hclosed eq_refl eq_refl eq_refl eq_refl) as (_ & Hnumber).
  now apply Hnumber.
Defined.

Lemma repr_loses_operand_grouping_witness :
  Expression_call (cls := test_cls)
    (Chain (Chain Placeholder (OrSomething (VInt 8)))
           (AndSomething (VExpr (Chain Placeholder (AndSomething (VInt 6))))))
    [VInt 3]
  <> Expression_call
       (Chain (Chain (Chain Placeholder (OrSomething (VInt 8)))
                     (AndSomething (VExpr Placeholder)))
              (AndSomething (VInt 6)))
       [VInt 3].
Proof.
  destruct (repr_loses_operand_grouping (cls := test_cls)
              (Chain Placeholder (OrSomething (VInt 8))) (VInt 6) (VInt 3) 11)
    as (_ & _ & Hcalls).
  destruct (Hcalls eq_refl) as (_ & _ & Hdiffer).
  exact Hdiffer.
Defined.

Section MixedExpressions.
Context {cls : Type} `{!UserClasses cls} `{!Host cls}.
Implicit Types (P e : expr cls) (O : operation cls) (x k : value cls).

(** An expression given to [&] or [|] as operand is stored, not
    composed: on an input for which the first expression returns an
    integer, the call does not evaluate the second expression but
    returns it extended by that integer. *)
Theorem expression_operand_is_not_composed (op : bitop) (e1 e2 : expr cls)
    x (n : Z) :
  Expression_call e1 [x] = Ok (VInt n) ->
  binary_op op (VExpr e1) (VExpr e2)
  = Ok (VExpr (Chain e1 (operand_right op (VExpr e2))))
  /\ Expression_call (Chain e1 (operand_right op (VExpr e2))) [x]
     = Ok (VExpr (Chain e2 (operand_left op (VInt n)))).
Proof.
  intros He1. split; [apply expression_on_the_left|].
  rewrite call_operand_right, He1. cbn [result_bind].
  now apply expression_on_the_right.
Qed.

(** The two kinds of expression do not mix.  A chain has no arithmetic
    operators: with a number on either side the operator raises at
    once; an arithmetic expression has no [&] and [|]: with an integer
    on either side the operator raises at once. *)
Theorem expression_kinds_do_not_mix (n : nat) (op : arith) (bop : bitop)
    P O k (z : Z) (l : loc) (h : heap cls) :
  is_number k = true ->
  binary_arith (S n) op (VExpr (Chain P O)) k h
  = Some (Raise UnsupportedOperation, h)
  /\ binary_arith (S n) op k (VExpr (Chain P O)) h
     = Some (Raise UnsupportedOperation, h)
  /\ binary_op bop (VMath l) (VInt z) = Raise UnsupportedOperation
  /\ binary_op bop (VInt z) (VMath l) = Raise UnsupportedOperation.
Proof.
  intros Hk. repeat apply conj; try reflexivity.
  - destruct k; try discriminate Hk; reflexivity.
  - destruct k; try discriminate Hk; reflexivity.
Qed.
End MixedExpressions.

Lemma expression_operand_is_not_composed_witness :
  Expression_call (cls := test_cls)
    (Chain (Chain Placeholder (AndSomething (VInt 6)))
           (OrSomething (VExpr (Chain Placeholder (AndSomething (VInt 1))))))
    [VInt 3]
  = Ok (VExpr (Chain (Chain Placeholder (AndSomething (VInt 1)))
                     (SomethingOr (VInt 2)))).
Proof.
  destruct (expression_operand_is_not_composed (cls := test_cls) BitOr
              (Chain Placeholder (AndSomething (VInt 6)))
              (Chain Placeholder (AndSomething (VInt 1)))
              (VInt 3) 2 eq_refl) as (_ & Hcall).
  exact Hcall.
Defined.

Lemma expression_kinds_do_not_mix_witness :
  binary_arith 1 Add
    (VExpr (Chain Placeholder (AndSomething (VInt 3)))) (VInt 1) empty_heap
  = Some (Raise UnsupportedOperation, empty_heap).
Proof.
  destruct (expression_kinds_do_not_mix (cls := test_cls) 0 Add BitAnd
              Placeholder (AndSomething (VInt 3)) (VInt 1) 0 0 empty_heap
              eq_refl) as (Hleft & _).
  exact Hleft.
Defined.
